(** * LpWatermark: the watermark overlay of [distance-test/src/App.tsx]

    A shallow embedding of the watermark component: the option record and its
    merge with [defaultOptions], the tile construction ([getCanvasData] with
    [configCanvas], [drawText] and [drawImage]), the overlay insertion and the
    mutation observer of [drawWatermark].

    JavaScript numbers are IEEE 754 binary64 values, so they are modelled by
    Rocq's primitive floats.  What the host platform supplies and the source
    only calls (text metrics, trigonometry, image decoding, PNG export, the
    digit generation of non-integral numbers, [parseFloat]) is gathered in
    the record [Engine]; every definition below is parametric in it. *)

From Stdlib Require Import PrimFloat FloatOps SpecFloat Uint63.
From Stdlib Require Import ZArith NArith List String Ascii Bool Lia.
From Stdlib Require Import DecimalString.
Import ListNotations.

Local Open Scope string_scope.

(** ** JavaScript values *)

Module JS.

Definition number := float.

Definition isNaN (x : number) : bool := negb (PrimFloat.eqb x x).

(** [ToBoolean] on a number: [+0], [-0] and [NaN] are falsy. *)
Definition truthy (x : number) : bool :=
  negb (PrimFloat.eqb x 0%float || isNaN x).

(** [ToBoolean] on a string: only the empty string is falsy. *)
Definition truthy_string (s : string) : bool :=
  match s with
  | EmptyString => false
  | String _ _ => true
  end.

(** A possibly [undefined] value is falsy when it is [undefined]. *)
Definition truthy_opt {A} (t : A -> bool) (o : option A) : bool :=
  match o with
  | Some a => t a
  | None => false
  end.

(** The integer a finite number denotes, when it denotes one. *)
Definition integer_value (x : number) : option Z :=
  match Prim2SF x with
  | S754_zero _ => Some 0%Z
  | S754_finite s m e =>
      let mag :=
        if (0 <=? e)%Z then Some (Z.pos m * 2 ^ e)%Z
        else if (Z.pos m mod 2 ^ (- e) =? 0)%Z
             then Some (Z.pos m / 2 ^ (- e))%Z
             else None in
      option_map (fun z => if s then (- z)%Z else z) mag
  | _ => None
  end.

Definition decimal (z : Z) : string :=
  NilZero.string_of_uint (N.to_uint (Z.to_N z)).

Definition of_Z (z : Z) : number :=
  if (z <? 0)%Z then PrimFloat.opp (PrimFloat.of_uint63 (Uint63.of_Z (- z)))
  else PrimFloat.of_uint63 (Uint63.of_Z z).

(** [Number::toString].  Integers below 2^53 print as their decimal digits;
    the shortest round-trip digits of any other finite number are the
    engine's ([digits]). *)
Definition toString (digits : number -> string) (x : number) : string :=
  if isNaN x then "NaN"
  else if PrimFloat.eqb x 0%float then "0"
  else if PrimFloat.eqb x infinity then "Infinity"
  else if PrimFloat.eqb x neg_infinity then "-Infinity"
  else
    let a := PrimFloat.abs x in
    let sign := if PrimFloat.ltb x 0%float then "-" else EmptyString in
    match integer_value a with
    | Some z =>
        if (z <? 2 ^ 53)%Z then sign ++ decimal z else sign ++ digits a
    | None => sign ++ digits a
    end.

(** [Math.ceil]: the least integral number not below [x]; a result in
    (-1, 0) is [-0]. *)
Definition Math_ceil (x : number) : number :=
  match Prim2SF x with
  | S754_finite s m e =>
      if (0 <=? e)%Z then x
      else
        let d := (2 ^ (- e))%Z in
        if s then
          let q := (Z.pos m / d)%Z in
          if (q =? 0)%Z then PrimFloat.opp 0%float else of_Z (- q)
        else of_Z ((Z.pos m + d - 1) / d)
  | _ => x
  end.

Definition Math_abs (x : number) : number := PrimFloat.abs x.

Definition Math_PI : number := 0x1.921fb54442d18p+1%float.

(** [String.prototype.includes]. *)
Fixpoint includes (s sub : string) : bool :=
  prefix sub s ||
  match s with
  | EmptyString => false
  | String _ s' => includes s' sub
  end.

End JS.

(** ** Options *)

(** [number | string], the type of [fontSize] and [fontWeight]. *)
Inductive NumOrStr :=
| Num (n : JS.number)
| Str (s : string).

(** The [textStyle] object of the props: every field optional. *)
Record TextStyleProps := {
  p_color : option string;
  p_fontFamily : option string;
  p_fontSize : option NumOrStr;
  p_fontWeight : option NumOrStr
}.

(** [LpWatermarkProps]: every field optional ([None] is [undefined]). *)
Record LpWatermarkProps := {
  p_width : option JS.number;
  p_height : option JS.number;
  p_text : option string;
  p_textStyle : option TextStyleProps;
  p_image : option string;
  p_zIndex : option JS.number;
  p_rotate : option JS.number;
  p_gap : option (JS.number * JS.number);
  p_offset : option (JS.number * JS.number)
}.

Definition defaultOptions : LpWatermarkProps := {|
  p_width := Some 120%float;
  p_height := Some 64%float;
  p_text := None;
  p_textStyle := Some {|
    p_color := Some "rgba(0, 0, 0, 0.15)";
    p_fontFamily := Some "sans-serif";
    p_fontSize := Some (Str "16px");
    p_fontWeight := Some (Str "normal") |};
  p_image := None;
  p_zIndex := Some 9%float;
  p_rotate := Some (-22)%float;
  p_gap := Some (100%float, 100%float);
  p_offset := None
|}.

Definition emptyProps : LpWatermarkProps := {|
  p_width := None; p_height := None; p_text := None; p_textStyle := None;
  p_image := None; p_zIndex := None; p_rotate := None; p_gap := None;
  p_offset := None
|}.

(** lodash [merge] on these records: a source field that is [undefined] is
    skipped, a primitive or a two-element array that is present replaces the
    destination's, and the nested [textStyle] object is merged field by
    field. *)
Definition assign {A} (dst src : option A) : option A :=
  match src with
  | Some v => Some v
  | None => dst
  end.

Definition mergeTextStyle (dst src : option TextStyleProps)
  : option TextStyleProps :=
  match dst, src with
  | Some d, Some s => Some {|
      p_color := assign (p_color d) (p_color s);
      p_fontFamily := assign (p_fontFamily d) (p_fontFamily s);
      p_fontSize := assign (p_fontSize d) (p_fontSize s);
      p_fontWeight := assign (p_fontWeight d) (p_fontWeight s) |}
  | _, _ => assign dst src
  end.

Definition merge2 (dst src : LpWatermarkProps) : LpWatermarkProps := {|
  p_width := assign (p_width dst) (p_width src);
  p_height := assign (p_height dst) (p_height src);
  p_text := assign (p_text dst) (p_text src);
  p_textStyle := mergeTextStyle (p_textStyle dst) (p_textStyle src);
  p_image := assign (p_image dst) (p_image src);
  p_zIndex := assign (p_zIndex dst) (p_zIndex src);
  p_rotate := assign (p_rotate dst) (p_rotate src);
  p_gap := assign (p_gap dst) (p_gap src);
  p_offset := assign (p_offset dst) (p_offset src)
|}.

(** [merge({}, defaultOptions, props)]. *)
Definition merge (props : LpWatermarkProps) : LpWatermarkProps :=
  merge2 (merge2 emptyProps defaultOptions) props.

(** The merged options.  [as Required<LpWatermarkProps>] is a type assertion:
    the fields [defaultOptions] covers are present after the merge, while
    [text], [image] and [offset] have no default and may still be
    [undefined]. *)
Record TextStyle := {
  color : string;
  fontFamily : string;
  fontSize : NumOrStr;
  fontWeight : NumOrStr
}.

Record Options := {
  width : JS.number;
  height : JS.number;
  text : option string;
  textStyle : TextStyle;
  image : option string;
  zIndex : JS.number;
  rotate : JS.number;
  gap : JS.number * JS.number;
  offset : option (JS.number * JS.number)
}.

Definition get {A} (o : option A) (d : A) : A :=
  match o with
  | Some v => v
  | None => d
  end.

(** Reads the merged object at the type the source asserts for it; the
    second argument of each [get] is never used on a value of [merge],
    see [merge_covers]. *)
Definition required (m : LpWatermarkProps) : Options :=
  let ts := get (p_textStyle m)
                {| p_color := None; p_fontFamily := None;
                   p_fontSize := None; p_fontWeight := None |} in
  {| width := get (p_width m) 120%float;
     height := get (p_height m) 64%float;
     text := p_text m;
     textStyle := {|
       color := get (p_color ts) "rgba(0, 0, 0, 0.15)";
       fontFamily := get (p_fontFamily ts) "sans-serif";
       fontSize := get (p_fontSize ts) (Str "16px");
       fontWeight := get (p_fontWeight ts) (Str "normal") |};
     image := p_image m;
     zIndex := get (p_zIndex m) 9%float;
     rotate := get (p_rotate m) (-22)%float;
     gap := get (p_gap m) (100%float, 100%float);
     offset := p_offset m |}.

(** The [options] constant of the component. *)
Definition options_of (props : LpWatermarkProps) : Options :=
  required (merge props).

(** ** The host platform *)

Record TextMetrics := {
  tm_width : JS.number;
  fontBoundingBoxAscent : JS.number;
  fontBoundingBoxDescent : JS.number
}.

(** A decoded image: its source and intrinsic size. *)
Record HTMLImage := {
  img_src : string;
  img_width : JS.number;
  img_height : JS.number
}.

(** One call on the 2D context that changes the bitmap or the transform. *)
Inductive CtxOp :=
| Translate (x y : JS.number)
| Scale (x y : JS.number)
| Rotate (angle : JS.number)
| FillText (txt : string) (x y maxWidth : JS.number)
           (font fillStyle textBaseline : string)
| DrawImage (img : HTMLImage) (dx dy dw dh : JS.number).

(** A canvas element with its 2D context: the two size attributes, the inline
    style sizes, the context's text state, and the calls made since the
    bitmap was last reset, oldest first. *)
Record Canvas := {
  attr_width : option string;
  attr_height : option string;
  style_width : option string;
  style_height : option string;
  ctx_font : string;
  ctx_fillStyle : string;
  ctx_textBaseline : string;
  ctx_ops : list CtxOp
}.

Record Engine := {
  devicePixelRatio : JS.number;
  Math_sin : JS.number -> JS.number;
  Math_cos : JS.number -> JS.number;
  parseFloat : string -> JS.number;
  (** digits of a finite number other than an integer below 2^53 *)
  digits : JS.number -> string;
  (** [ctx.measureText(text)] under the context's current font *)
  measureText : string -> string -> TextMetrics;
  (** [canvas.toDataURL()] *)
  toDataURL : Canvas -> string;
  (** the outcome of loading [img.src]: the decoded image ([onload]) or
      [None] ([onerror]) *)
  loadImage : string -> option HTMLImage
}.

(** ** Canvas operations *)

(** [document.createElement("canvas")] with the context's initial state. *)
Definition createCanvas : Canvas := {|
  attr_width := None; attr_height := None;
  style_width := None; style_height := None;
  ctx_font := "10px sans-serif";
  ctx_fillStyle := "#000000";
  ctx_textBaseline := "alphabetic";
  ctx_ops := []
|}.

(** Setting the [width] or [height] attribute of a canvas clears its bitmap
    and resets its context to the initial state. *)
Definition setAttribute_width (v : string) (c : Canvas) : Canvas :=
  {| attr_width := Some v; attr_height := attr_height c;
     style_width := style_width c; style_height := style_height c;
     ctx_font := ctx_font createCanvas;
     ctx_fillStyle := ctx_fillStyle createCanvas;
     ctx_textBaseline := ctx_textBaseline createCanvas;
     ctx_ops := [] |}.

Definition setAttribute_height (v : string) (c : Canvas) : Canvas :=
  {| attr_width := attr_width c; attr_height := Some v;
     style_width := style_width c; style_height := style_height c;
     ctx_font := ctx_font createCanvas;
     ctx_fillStyle := ctx_fillStyle createCanvas;
     ctx_textBaseline := ctx_textBaseline createCanvas;
     ctx_ops := [] |}.

(** The lengths [canvas.style.width] and [canvas.style.height] accept.  The
    component assigns a printed number followed by [px]; such a text is a
    valid declaration when the number is one of CSS (digits, an optional
    fraction, an optional exponent - so not [NaN] or [Infinity]) and is not
    negative.  Any other text is taken as invalid. *)
Module CSS.

Definition is_digit (a : ascii) : bool :=
  let n := nat_of_ascii a in Nat.leb 48 n && Nat.leb n 57.

(** The leading digits of [s]: how many, whether all are 0, and the rest. *)
Fixpoint digits (s : string) : nat * bool * string :=
  match s with
  | String a s' =>
      if is_digit a
      then let '(n, z, r) := digits s' in (S n, Ascii.eqb a "0" && z, r)
      else (0, true, s)
  | EmptyString => (0, true, s)
  end.

Definition skip_sign (s : string) : string :=
  match s with
  | String a r => if Ascii.eqb a "+" || Ascii.eqb a "-" then r else s
  | EmptyString => s
  end.

(** An unsigned number at the head of [s]: whether it is zero, and the
    rest of [s].  A point or an exponent mark not followed by a digit is
    not part of the number. *)
Definition number (s : string) : option (bool * string) :=
  let '(n1, z1, r1) := digits s in
  let '(n2, z2, r2) :=
    match r1 with
    | String a r =>
        if Ascii.eqb a "."
        then let '(n, z, r') := digits r in
             if Nat.eqb n 0 then (0, true, r1) else (n, z, r')
        else (0, true, r1)
    | EmptyString => (0, true, r1)
    end in
  if Nat.eqb n1 0 && Nat.eqb n2 0 then None
  else
    let r3 :=
      match r2 with
      | String a r =>
          if Ascii.eqb a "e" || Ascii.eqb a "E"
          then let '(n, _, r') := digits (skip_sign r) in
               if Nat.eqb n 0 then r2 else r'
          else r2
      | EmptyString => r2
      end in
    Some (z1 && z2, r3).

Definition nonnegative_px (s : string) : bool :=
  let negative :=
    match s with
    | String a _ => Ascii.eqb a "-"
    | EmptyString => false
    end in
  match number (skip_sign s) with
  | Some (zero, rest) => String.eqb rest "px" && (negb negative || zero)
  | None => false
  end.

End CSS.

(** [canvas.style.width = v]: a declaration the platform cannot parse is
    dropped and the style keeps what it had. *)
Definition set_style_width (v : string) (c : Canvas) : Canvas :=
  {| attr_width := attr_width c; attr_height := attr_height c;
     style_width := if CSS.nonnegative_px v then Some v else style_width c;
     style_height := style_height c;
     ctx_font := ctx_font c; ctx_fillStyle := ctx_fillStyle c;
     ctx_textBaseline := ctx_textBaseline c; ctx_ops := ctx_ops c |}.

Definition set_style_height (v : string) (c : Canvas) : Canvas :=
  {| attr_width := attr_width c; attr_height := attr_height c;
     style_width := style_width c;
     style_height := if CSS.nonnegative_px v then Some v else style_height c;
     ctx_font := ctx_font c; ctx_fillStyle := ctx_fillStyle c;
     ctx_textBaseline := ctx_textBaseline c; ctx_ops := ctx_ops c |}.

(** [ctx.font = v].  The text is kept as assigned; how the platform reads
    it is part of [measureText]. *)
Definition set_font (v : string) (c : Canvas) : Canvas :=
  {| attr_width := attr_width c; attr_height := attr_height c;
     style_width := style_width c; style_height := style_height c;
     ctx_font := v; ctx_fillStyle := ctx_fillStyle c;
     ctx_textBaseline := ctx_textBaseline c; ctx_ops := ctx_ops c |}.

Definition set_fillStyle (v : string) (c : Canvas) : Canvas :=
  {| attr_width := attr_width c; attr_height := attr_height c;
     style_width := style_width c; style_height := style_height c;
     ctx_font := ctx_font c; ctx_fillStyle := v;
     ctx_textBaseline := ctx_textBaseline c; ctx_ops := ctx_ops c |}.

Definition set_textBaseline (v : string) (c : Canvas) : Canvas :=
  {| attr_width := attr_width c; attr_height := attr_height c;
     style_width := style_width c; style_height := style_height c;
     ctx_font := ctx_font c; ctx_fillStyle := ctx_fillStyle c;
     ctx_textBaseline := v; ctx_ops := ctx_ops c |}.

Definition call (op : CtxOp) (c : Canvas) : Canvas :=
  {| attr_width := attr_width c; attr_height := attr_height c;
     style_width := style_width c; style_height := style_height c;
     ctx_font := ctx_font c; ctx_fillStyle := ctx_fillStyle c;
     ctx_textBaseline := ctx_textBaseline c; ctx_ops := ctx_ops c ++ [op] |}.

(** [ctx.fillText] paints with the context's current text state. *)
Definition fillText (txt : string) (x y maxWidth : JS.number) (c : Canvas)
  : Canvas :=
  call (FillText txt x y maxWidth
          (ctx_font c) (ctx_fillStyle c) (ctx_textBaseline c)) c.

(** A value passed where the platform expects a string: [undefined] is
    converted to the string "undefined". *)
Definition DOMString (o : option string) : string := get o "undefined".

(** ** Tile construction: [getCanvasData] *)

(** A promise that is settled synchronously or never: [Pending] is a promise
    whose [resolve] is not called by any handler. *)
Inductive promise (A : Type) :=
| Pending
| Fulfilled (a : A).
Arguments Pending {A}.
Arguments Fulfilled {A} a.

Record Tile := {
  base64Url : string;
  tile_width : JS.number;
  tile_height : JS.number
}.

Definition toNum (E : Engine) (value : NumOrStr) : JS.number :=
  match value with
  | Num n => n
  | Str s => parseFloat E s
  end.

Section GetCanvasData.

Variable E : Engine.
Variable options : Options.

Let ratio := devicePixelRatio E.
Let str (x : JS.number) : string := JS.toString (digits E) x.

Definition str_of (v : NumOrStr) : string :=
  match v with
  | Num n => JS.toString (digits E) n
  | Str s => s
  end.

Definition configCanvas (width height : JS.number) (canvas : Canvas)
  : Canvas :=
  let canvasWidth := (fst (gap options) + width)%float in
  let canvasHeight := (snd (gap options) + height)%float in
  let canvas := setAttribute_width (str (canvasWidth * ratio)%float ++ "px") canvas in
  let canvas := setAttribute_height (str (canvasHeight * ratio)%float ++ "px") canvas in
  let canvas := set_style_width (str canvasWidth ++ "px") canvas in
  let canvas := set_style_height (str canvasHeight ++ "px") canvas in
  let canvas := call (Translate (canvasWidth * ratio / 2)%float
                                (canvasHeight * ratio / 2)%float) canvas in
  let canvas := call (Scale ratio ratio) canvas in
  let RotateAngle := (rotate options * JS.Math_PI / 180)%float in
  call (Rotate RotateAngle) canvas.

(** The [ctx.font] value both assignments of [drawText] build. *)
Definition fontOf (ts : TextStyle) : string :=
  str_of (fontWeight ts) ++ " " ++ str (toNum E (fontSize ts)) ++ "px "
    ++ fontFamily ts.

(** The rotated bounds [_textWidth] and [_textHeight] of [drawText]. *)
Definition rotatedWidth (angle textWidth textHeight : JS.number) : JS.number :=
  JS.Math_ceil
    (JS.Math_abs (Math_sin E angle * textHeight)
     + JS.Math_abs (Math_cos E angle * textWidth))%float.

Definition rotatedHeight (angle textWidth textHeight : JS.number) : JS.number :=
  JS.Math_ceil
    (JS.Math_abs (Math_sin E angle * textWidth)
     + JS.Math_abs (textHeight * Math_cos E angle))%float.

(** [a || b] on numbers. *)
Definition or_num (a b : JS.number) : JS.number :=
  if JS.truthy a then a else b.

Definition drawText (canvas : Canvas) : Tile * Canvas :=
  let canvas := set_font (fontOf (textStyle options)) canvas in
  let m := measureText E (ctx_font canvas) (DOMString (text options)) in
  let textWidth := tm_width m in
  let angle := (rotate options * JS.Math_PI / 180)%float in
  let textHeight :=
    (fontBoundingBoxAscent m + fontBoundingBoxDescent m)%float in
  let _textWidth := rotatedWidth angle textWidth textHeight in
  let _textHeight := rotatedHeight angle textWidth textHeight in
  let width_ := or_num (width options) _textWidth in
  let height_ := or_num (height options) _textHeight in
  let canvas := configCanvas width_ height_ canvas in
  let canvas := set_font (fontOf (textStyle options)) canvas in
  let canvas := set_fillStyle (color (textStyle options)) canvas in
  let canvas := set_textBaseline "top" canvas in
  let canvas :=
    fillText (DOMString (text options))
             (- _textWidth / 2)%float
             (- (or_num (height options) _textHeight) / 2)%float
             (or_num (width options) _textWidth) canvas in
  ({| base64Url := toDataURL E canvas;
      tile_width := width_; tile_height := height_ |}, canvas).

(** The size [img.onload] gives the tile. *)
Definition imageSize (img : HTMLImage) : JS.number * JS.number :=
  let width := width options in
  let height := height options in
  if negb (JS.truthy width) || negb (JS.truthy height) then
    if JS.truthy width
    then (width, (img_height img / img_width img * width)%float)
    else ((img_width img / img_height img * height)%float, height)
  else (width, height).

(** [drawImage]: the promise settles in [img.onload] only; [img.onerror]
    calls [drawText] and drops the promise it returns. *)
Definition drawImage (src : string) (canvas : Canvas)
  : promise Tile * Canvas :=
  match loadImage E src with
  | Some img =>
      let '(width, height) := imageSize img in
      let canvas := configCanvas width height canvas in
      let canvas :=
        call (DrawImage img (- width / 2)%float (- height / 2)%float
                        width height) canvas in
      (Fulfilled {| base64Url := toDataURL E canvas;
                    tile_width := width; tile_height := height |}, canvas)
  | None =>
      let '(_, canvas) := drawText canvas in
      (Pending, canvas)
  end.

(** [getCanvasData], with the canvas it drew on. *)
Definition getCanvasData_canvas : promise Tile * Canvas :=
  let canvas := createCanvas in
  match image options with
  | Some src =>
      if JS.truthy_string src then drawImage src canvas
      else let '(t, canvas) := drawText canvas in (Fulfilled t, canvas)
  | None => let '(t, canvas) := drawText canvas in (Fulfilled t, canvas)
  end.

Definition getCanvasData : promise Tile := fst getCanvasData_canvas.

End GetCanvasData.

(** ** The container, its children and the mutation observers *)

Definition NodeId := nat.

(** The node [containerRef.current]. *)
Definition container : NodeId := 0.

(** A child element of the container: identity, tag and attributes. *)
Record Element := {
  el_id : NodeId;
  el_tag : string;
  el_attrs : list (string * string)
}.

Inductive MutationType := attributes | childList | characterData.

Record MutationRecord := {
  mr_type : MutationType;
  mr_target : NodeId;
  addedNodes : list NodeId;
  removedNodes : list NodeId
}.

Definition MutationType_eqb (a b : MutationType) : bool :=
  match a, b with
  | attributes, attributes => true
  | childList, childList => true
  | characterData, characterData => true
  | _, _ => false
  end.

(** A [MutationObserver] made by [drawWatermark]: the [watermarkDiv] its
    callback closes over, whether it is registered on the container, and its
    record queue. *)
Record Observer := {
  ob_watermarkDiv : NodeId;
  ob_observing : bool;
  ob_records : list MutationRecord
}.

Record World := {
  children : list Element;      (** child nodes of the container, in order *)
  position : option string;     (** [container.style.position] *)
  observers : list Observer;    (** every observer created so far, oldest first *)
  current : option nat;         (** [mutationObserver.current], an index into [observers] *)
  awaiting : nat;               (** runs of [drawWatermark] suspended at [await] *)
  completed : nat;              (** runs of [drawWatermark] that have returned *)
  next_node : NodeId            (** identity of the next created node *)
}.

Definition set_children (c : list Element) (w : World) : World :=
  {| children := c; position := position w; observers := observers w;
     current := current w; awaiting := awaiting w; completed := completed w;
     next_node := next_node w |}.

Definition set_observers (o : list Observer) (w : World) : World :=
  {| children := children w; position := position w; observers := o;
     current := current w; awaiting := awaiting w; completed := completed w;
     next_node := next_node w |}.

Definition set_awaiting (n : nat) (w : World) : World :=
  {| children := children w; position := position w; observers := observers w;
     current := current w; awaiting := n; completed := completed w;
     next_node := next_node w |}.

(** Queues a record on every observer registered on the container (all of
    them observe with [attributes], [subtree] and [childList]). *)
Definition enqueue (r : MutationRecord) (o : Observer) : Observer :=
  if ob_observing o
  then {| ob_watermarkDiv := ob_watermarkDiv o;
          ob_observing := true; ob_records := ob_records o ++ [r] |}
  else o.

Definition notify (r : MutationRecord) (w : World) : World :=
  set_observers (map (enqueue r) (observers w)) w.

Fixpoint update_observer (i : nat) (f : Observer -> Observer)
  (l : list Observer) : list Observer :=
  match l, i with
  | [], _ => []
  | o :: l', O => f o :: l'
  | o :: l', S i' => o :: update_observer i' f l'
  end.

(** [disconnect()] unregisters the observer and empties its queue. *)
Definition disconnected (o : Observer) : Observer :=
  {| ob_watermarkDiv := ob_watermarkDiv o;
     ob_observing := false; ob_records := [] |}.

(** Handing an observer its records empties its queue. *)
Definition taken (o : Observer) : Observer :=
  {| ob_watermarkDiv := ob_watermarkDiv o;
     ob_observing := ob_observing o; ob_records := [] |}.

(** The record of a node appended to the container. *)
Definition appended (n : NodeId) : MutationRecord :=
  {| mr_type := childList; mr_target := container;
     addedNodes := [n]; removedNodes := [] |}.

(** The record of a node removed from the container. *)
Definition removed (n : NodeId) : MutationRecord :=
  {| mr_type := childList; mr_target := container;
     addedNodes := []; removedNodes := [n] |}.

(** The record of an attribute set on node [n]. *)
Definition attribute_set (n : NodeId) : MutationRecord :=
  {| mr_type := attributes; mr_target := n;
     addedNodes := []; removedNodes := [] |}.

(** ** The observer callback *)

(** The value the callback of [mutations.some] returns for one record. *)
Definition flag (watermarkDiv : NodeId) (mutation : MutationRecord) : bool :=
  let flag := false in
  let flag :=
    if negb (Nat.eqb (List.length (removedNodes mutation)) 0)
    then existsb (fun node => Nat.eqb node watermarkDiv) (removedNodes mutation)
    else flag in
  let flag :=
    if MutationType_eqb (mr_type mutation) attributes
       && Nat.eqb (mr_target mutation) watermarkDiv
    then true
    else flag in
  flag.

Definition isChanged (watermarkDiv : NodeId) (mutations : list MutationRecord)
  : bool :=
  existsb (flag watermarkDiv) mutations.

(** The callback: a changed batch calls [drawWatermark()], which runs up to
    its [await]. *)
Definition callback (watermarkDiv : NodeId) (mutations : list MutationRecord)
  (w : World) : World :=
  if isChanged watermarkDiv mutations
  then set_awaiting (S (awaiting w)) w
  else w.

(** ** [drawWatermark] after the [await] *)

Definition nl : string := String (ascii_of_nat 10) EmptyString.

Section DrawWatermark.

Variable E : Engine.
Variable options : Options.

Let str (x : JS.number) : string := JS.toString (digits E) x.

(** [offset?.[0] || 0 + "px"]: [+] binds tighter than [||]. *)
Definition offsetLeft : NumOrStr :=
  match offset options with
  | Some (x, _) => if JS.truthy x then Num x else Str (str 0%float ++ "px")
  | None => Str (str 0%float ++ "px")
  end.

Definition offsetTop : NumOrStr :=
  match offset options with
  | Some (_, y) => if JS.truthy y then Num y else Str (str 0%float ++ "px")
  | None => Str (str 0%float ++ "px")
  end.

Definition wmStyle (t : Tile) : string :=
  nl ++ "      width:calc(100% - " ++ str_of E offsetLeft ++ ");" ++
  nl ++ "      height:calc(100% - " ++ str_of E offsetTop ++ ");" ++
  nl ++ "      position:absolute;" ++
  nl ++ "      top:" ++ str_of E offsetTop ++ ";" ++
  nl ++ "      left:" ++ str_of E offsetLeft ++ ";" ++
  nl ++ "      bottom:0;" ++
  nl ++ "      right:0;" ++
  nl ++ "      pointer-events: none;" ++
  nl ++ "      z-index:" ++ str (zIndex options) ++ ";" ++
  nl ++ "      background-position: 0 0;" ++
  nl ++ "      background-size:"
     ++ str (fst (gap options) + tile_width t)%float ++ "px "
     ++ str (snd (gap options) + tile_height t)%float ++ "px;" ++
  nl ++ "      background-repeat: repeat;" ++
  nl ++ "      background-image:url(" ++ base64Url t ++ ")".

(** The new [watermarkDiv] with its [style] attribute.  The attribute is set
    before the node is in the document, so no observer is notified. *)
Definition watermarkDiv (t : Tile) (w : World) : Element :=
  {| el_id := next_node w; el_tag := "div";
     el_attrs := [("style", wmStyle t)] |}.

(** [containerRef.current.append(watermarkDiv)]. *)
Definition append (e : Element) (w : World) : World :=
  notify (appended (el_id e))
    {| children := children w ++ [e]; position := position w;
       observers := observers w; current := current w;
       awaiting := awaiting w; completed := completed w;
       next_node := S (next_node w) |}.

(** [containerRef.current.style.position = "relative"]: a change of the
    container's [style] attribute. *)
Definition setPosition (w : World) : World :=
  notify (attribute_set container)
    {| children := children w; position := Some "relative";
       observers := observers w; current := current w;
       awaiting := awaiting w; completed := completed w;
       next_node := next_node w |}.

(** [mutationObserver.current?.disconnect()]. *)
Definition disconnect (w : World) : World :=
  match current w with
  | Some i => set_observers (update_observer i disconnected (observers w)) w
  | None => w
  end.

(** [mutationObserver.current = new MutationObserver(...)] followed by
    [observe(containerRef.current, ...)]. *)
Definition observe (div : NodeId) (w : World) : World :=
  let i := List.length (observers w) in
  {| children := children w; position := position w;
     observers := observers w ++
       [{| ob_watermarkDiv := div;
           ob_observing := true; ob_records := [] |}];
     current := Some i;
     awaiting := awaiting w; completed := completed w;
     next_node := next_node w |}.

Definition finish (w : World) : World :=
  {| children := children w; position := position w;
     observers := observers w; current := current w;
     awaiting := Nat.pred (awaiting w); completed := S (completed w);
     next_node := next_node w |}.

(** Everything [drawWatermark] does once the awaited tile is there. *)
Definition resume (t : Tile) (w : World) : World :=
  let div := watermarkDiv t w in
  finish (observe (el_id div) (disconnect (setPosition (append div w)))).

(** ** Events *)

Inductive Event :=
| Mount                       (** the effect calls [drawWatermark()] *)
| Settle                      (** an awaited tile promise is fulfilled *)
| Deliver (i : nat)           (** observer [i] is handed its queued records *)
| RemoveChild (n : NodeId)    (** other code removes a child of the container *)
| SetAttribute (n : NodeId) (name value : string)
                              (** other code sets an attribute in the container *)
| AppendChild (tag : string). (** other code appends a child to the container *)

Definition has_child (n : NodeId) (w : World) : bool :=
  existsb (fun e => Nat.eqb (el_id e) n) (children w).

Fixpoint set_attr (name value : string) (l : list (string * string))
  : list (string * string) :=
  match l with
  | [] => [(name, value)]
  | (k, v) :: l' =>
      if String.eqb k name then (k, value) :: l'
      else (k, v) :: set_attr name value l'
  end.

Definition set_attr_of (n : NodeId) (name value : string) (e : Element)
  : Element :=
  if Nat.eqb (el_id e) n
  then {| el_id := el_id e; el_tag := el_tag e;
          el_attrs := set_attr name value (el_attrs e) |}
  else e.

Definition step (ev : Event) (w : World) : option World :=
  match ev with
  | Mount => Some (set_awaiting (S (awaiting w)) w)
  | Settle =>
      match awaiting w, getCanvasData E options with
      | S _, Fulfilled t => Some (resume t w)
      | _, _ => None
      end
  | Deliver i =>
      match nth_error (observers w) i with
      | Some o =>
          match ob_records o with
          | [] => None
          | mutations =>
              Some (callback (ob_watermarkDiv o) mutations
                      (set_observers
                         (update_observer i taken (observers w)) w))
          end
      | None => None
      end
  | RemoveChild n =>
      if has_child n w
      then Some (notify (removed n)
                   (set_children
                      (filter (fun e => negb (Nat.eqb (el_id e) n))
                              (children w)) w))
      else None
  | SetAttribute n name value =>
      if Nat.eqb n container || has_child n w
      then Some (notify (attribute_set n)
                   (set_children
                      (map (set_attr_of n name value) (children w)) w))
      else None
  | AppendChild tag =>
      Some (notify (appended (next_node w))
              {| children := children w ++
                   [{| el_id := next_node w; el_tag := tag; el_attrs := [] |}];
                 position := position w; observers := observers w;
                 current := current w; awaiting := awaiting w;
                 completed := completed w;
                 next_node := S (next_node w) |})
  end.

(** Runs a list of events, failing when one is not enabled. *)
Fixpoint run (evs : list Event) (w : World) : option World :=
  match evs with
  | [] => Some w
  | ev :: evs' =>
      match step ev w with
      | Some w' => run evs' w'
      | None => None
      end
  end.

(** The world in which the component is first rendered: the host's
    children, no observer, nothing started. *)
Definition mounted (host : list Element) (w : World) : Prop :=
  children w = host /\ position w = None /\ observers w = [] /\
  current w = None /\ awaiting w = 0 /\ completed w = 0 /\
  Forall (fun e => el_id e < next_node w /\ el_id e <> container) host /\
  container < next_node w.

Inductive reachable : World -> Prop :=
| reach_mounted host w : mounted host w -> reachable w
| reach_step ev w w' : reachable w -> step ev w = Some w' -> reachable w'.

Definition count_observing (w : World) : nat :=
  List.length (filter ob_observing (observers w)).

End DrawWatermark.

(** ** A concrete engine

    One platform the definitions can be run on: polynomial sine and cosine,
    a fixed-pitch font, a data URL that spells out the drawing calls, and a
    single image that loads. *)

Module Sample.

Local Open Scope float_scope.

Definition sin (x : float) : float :=
  let x2 := x * x in
  x * (1 - x2 / 6 * (1 - x2 / 20 * (1 - x2 / 42 * (1 - x2 / 72)))).

Definition cos (x : float) : float :=
  let x2 := x * x in
  1 - x2 / 2 * (1 - x2 / 12 * (1 - x2 / 30 * (1 - x2 / 56 * (1 - x2 / 90)))).

Definition digit (a : ascii) : option Z :=
  let n := Z.of_nat (nat_of_ascii a) in
  if ((48 <=? n) && (n <=? 57))%Z then Some (n - 48)%Z else None.

Fixpoint leading (s : string) (acc : option Z) : option Z :=
  match s with
  | EmptyString => acc
  | String a s' =>
      match digit a with
      | Some d => leading s' (Some (10 * get acc 0 + d)%Z)
      | None => acc
      end
  end.

(** [parseFloat] on a string that starts with decimal digits. *)
Definition parse (s : string) : float :=
  match leading s None with
  | Some z => JS.of_Z z
  | None => nan
  end.

Fixpoint pad (n : nat) (s : string) : string :=
  match n with
  | O => s
  | S n' => if Nat.ltb (String.length s) n then pad n' ("0" ++ s) else s
  end.

Fixpoint strip (n : nat) (z : Z) : nat * Z :=
  match n with
  | O => (O, z)
  | S n' => if (z mod 10 =? 0)%Z then strip n' (z / 10)%Z else (n, z)
  end.

(** The exact decimal expansion of a positive finite number. *)
Definition expansion (x : float) : string :=
  match Prim2SF x with
  | S754_finite _ m e =>
      if (0 <=? e)%Z then JS.decimal (Z.pos m * 2 ^ e)
      else
        let n := Z.to_nat (- e) in
        let d := (2 ^ (- e))%Z in
        let '(k, f) := strip n ((Z.pos m mod d) * 5 ^ (- e))%Z in
        JS.decimal (Z.pos m / d) ++
        (if (f =? 0)%Z then EmptyString else "." ++ pad k (JS.decimal f))%string
  | _ => "NaN"%string
  end.

Definition metrics (font txt : string) : TextMetrics :=
  {| tm_width := JS.of_Z (8 * Z.of_nat (String.length txt));
     fontBoundingBoxAscent := 14;
     fontBoundingBoxDescent := 4 |}.

Definition spell (op : CtxOp) : string :=
  match op with
  | Translate _ _ => "t"
  | Scale _ _ => "s"
  | Rotate _ => "r"
  | FillText txt _ _ _ _ _ _ => ("T(" ++ txt ++ ")")%string
  | DrawImage img _ _ _ _ => ("I(" ++ img_src img ++ ")")%string
  end.

Definition export (c : Canvas) : string :=
  ("data:image/png;base64," ++ String.concat EmptyString (map spell (ctx_ops c)))%string.

Definition load (src : string) : option HTMLImage :=
  if String.eqb src "logo.png"
  then Some {| img_src := src; img_width := 100; img_height := 50 |}
  else None.

Definition engine : Engine := {|
  devicePixelRatio := 2;
  Math_sin := sin;
  Math_cos := cos;
  parseFloat := parse;
  digits := expansion;
  measureText := metrics;
  toDataURL := export;
  loadImage := load
|}.

(** A page with one paragraph in the container, before the effect runs. *)
Definition page : World := {|
  children := [{| el_id := 1%nat; el_tag := "p"; el_attrs := [] |}];
  position := None; observers := []; current := None;
  awaiting := 0%nat; completed := 0%nat; next_node := 2%nat
|}.

Definition props (o : LpWatermarkProps) (txt : option string)
  (img : option string) : LpWatermarkProps :=
  {| p_width := p_width o; p_height := p_height o; p_text := txt;
     p_textStyle := p_textStyle o; p_image := img; p_zIndex := p_zIndex o;
     p_rotate := p_rotate o; p_gap := p_gap o; p_offset := p_offset o |}.

Definition confidential : LpWatermarkProps := {|
  p_width := None; p_height := None; p_text := Some "CONFIDENTIAL"%string;
  p_textStyle := None; p_image := None; p_zIndex := None;
  p_rotate := Some 0; p_gap := Some (50, 50); p_offset := None
|}.

(** The tile [confidential] is rendered to on this engine. *)
Definition tile : Tile := {|
  base64Url := "data:image/png;base64,tsrT(CONFIDENTIAL)"%string;
  tile_width := 120; tile_height := 64
|}.

(** The world the events [evs] lead to from [page], or [page] itself if
    one of them is not enabled. *)
Definition after (evs : list Event) : World :=
  get (run engine (options_of confidential) evs page) page.

End Sample.

(** ** Statements the development settles *)

(** The rotated bounding box of the measured text under the names the
    specification gives it; [drawText_size] and [drawText_ops] relate it to
    the [_textWidth] and [_textHeight] that [drawText] computes. *)
Definition boundW (E : Engine) (o : Options) : JS.number :=
  let m := measureText E (fontOf E (textStyle o)) (DOMString (text o)) in
  let theta := (rotate o * JS.Math_PI / 180)%float in
  let textHeight := (fontBoundingBoxAscent m + fontBoundingBoxDescent m)%float in
  JS.Math_ceil (JS.Math_abs (Math_sin E theta * textHeight)
                + JS.Math_abs (Math_cos E theta * tm_width m))%float.

Definition boundH (E : Engine) (o : Options) : JS.number :=
  let m := measureText E (fontOf E (textStyle o)) (DOMString (text o)) in
  let theta := (rotate o * JS.Math_PI / 180)%float in
  let textHeight := (fontBoundingBoxAscent m + fontBoundingBoxDescent m)%float in
  JS.Math_ceil (JS.Math_abs (Math_sin E theta * tm_width m)
                + JS.Math_abs (textHeight * Math_cos E theta))%float.

(** "A text tile whose caller gave neither width nor height has the size of
    the rotated bounding box." *)
Definition text_tile_is_rotated_box (E : Engine) (props : LpWatermarkProps)
  : Prop :=
  p_width props = None -> p_height props = None ->
  JS.truthy_opt JS.truthy_string (p_image props) = false ->
  exists t, getCanvasData E (options_of props) = Fulfilled t /\
            tile_width t = boundW E (options_of props) /\
            tile_height t = boundH E (options_of props).

(** "An image tile whose caller gave only the width gets the height that
    keeps the image's aspect ratio." *)
Definition image_tile_keeps_ratio (E : Engine) (props : LpWatermarkProps)
  : Prop :=
  forall src img w,
    p_image props = Some src -> loadImage E src = Some img ->
    p_width props = Some w -> p_height props = None ->
    exists t, getCanvasData E (options_of props) = Fulfilled t /\
              tile_height t = (img_height img / img_width img * w)%float.

(** "The tile contains the centered string [txt]": the string is painted
    with the box of its measured bounds centred on the origin, which
    [configCanvas] has moved to the centre of the tile.  With the baseline
    [top] and the default alignment the box hangs from the point given to
    [fillText] by its top left corner. *)
Definition paints_centred (E : Engine) (o : Options) (txt : string) : Prop :=
  exists t c x y maxWidth font fillStyle,
    getCanvasData_canvas E o = (Fulfilled t, c) /\
    In (FillText txt x y maxWidth font fillStyle "top") (ctx_ops c) /\
    x = (- boundW E o / 2)%float /\ y = (- boundH E o / 2)%float.

(** What holds between the events of a run of the component. *)
Record Inv (w : World) : Prop := {
  inv_current : forall i o, nth_error (observers w) i = Some o ->
                            ob_observing o = true -> current w = Some i;
  inv_count : count_observing w <= 1;
  inv_armed : 0 < completed w -> count_observing w = 1;
  inv_idle : forall o, In o (observers w) -> ob_observing o = false ->
                       ob_records o = [];
  inv_children : Forall (fun e => el_id e < next_node w /\ el_id e <> container)
                        (children w);
  inv_overlays : Forall (fun o => ob_watermarkDiv o < next_node w /\
                                  ob_watermarkDiv o <> container)
                        (observers w);
  inv_container : container < next_node w
}.

(** [keeps o o']: [o'] is [o] with the same overlay and registration, and
    with no records if [o] was unregistered with none. *)
Definition keeps (o o' : Observer) : Prop :=
  ob_watermarkDiv o' = ob_watermarkDiv o /\
  ob_observing o' = ob_observing o /\
  (ob_observing o = false -> ob_records o = [] -> ob_records o' = []).

(** ** The watermark the component maintains *)

(** The overlay a run appends for the tile [t], as the node [n]. *)
Definition intact (E : Engine) (options : Options) (t : Tile) (n : NodeId)
  : Element :=
  {| el_id := n; el_tag := "div";
     el_attrs := [("style", wmStyle E options t)] |}.

(** The overlay the registered observer watches is in the container, with
    the style it was given. *)
Definition watermarked (E : Engine) (options : Options) (t : Tile) (w : World)
  : Prop :=
  exists i o, current w = Some i /\ nth_error (observers w) i = Some o /\
    ob_observing o = true /\
    In (intact E options t (ob_watermarkDiv o)) (children w).

(** The watched overlay is in place, or a run of [drawWatermark] is waiting,
    or the observer holds a batch that will start one. *)
Definition guarded (E : Engine) (options : Options) (t : Tile) (w : World)
  : Prop :=
  exists i o, current w = Some i /\ nth_error (observers w) i = Some o /\
    ob_observing o = true /\
    (In (intact E options t (ob_watermarkDiv o)) (children w) \/
     0 < awaiting w \/
     isChanged (ob_watermarkDiv o) (ob_records o) = true).

(** The events the component and its observer produce themselves. *)
Definition internal (ev : Event) : bool :=
  match ev with
  | Mount | Settle | Deliver _ => true
  | RemoveChild _ | SetAttribute _ _ _ | AppendChild _ => false
  end.

Definition is_Settle (ev : Event) : bool :=
  match ev with
  | Settle => true
  | _ => false
  end.

(** A field of the caller's [textStyle], or [d] when the object or the field
    is [undefined]. *)
Definition style_field {A} (f : TextStyleProps -> option A)
  (ts : option TextStyleProps) (d : A) : A :=
  match ts with
  | Some s => get (f s) d
  | None => d
  end.

Definition is_FillText (op : CtxOp) : bool :=
  match op with
  | FillText _ _ _ _ _ _ _ => true
  | _ => false
  end.

Definition is_DrawImage (op : CtxOp) : bool :=
  match op with
  | DrawImage _ _ _ _ _ => true
  | _ => false
  end.

(** ** The file tabs: [FileNameItem] and [FileNameList] *)

Module FileNameItem.

(** The two state cells of the component: [name] starts as the [value] prop,
    [editing] as [false]. *)
Record State := {
  name : string;
  editing : bool
}.

Definition init (value : string) : State :=
  {| name := value; editing := false |}.

(** What is rendered inside the tab: the input while editing, else the
    span.  [classes] are the keys looked up in the style sheet. *)
Inductive Body :=
| Input (value : string)
| Span (txt : string).

Record View := {
  classes : list string;
  body : Body
}.

Definition render (actived : bool) (s : State) : View :=
  {| classes := "tab-item" :: (if actived then ["actived"] else []);
     body := if editing s then Input (name s) else Span (name s) |}.

(** The handlers the view offers: [onClick] on the tab, [onDoubleClick] on
    the span, [onChange] and [onBlur] on the input. *)
Inductive Event :=
| Click
| DoubleClick
| Change (value : string)
| Blur.

(** The calls made on the props. *)
Inductive Call :=
| onClick
| onEditComplete (name : string).

(** [setEditing(true)]; the deferred [focus()] changes no state. *)
Definition handleDoubleClick (s : State) : State :=
  {| name := name s; editing := true |}.

(** [setEditing(false); onEditComplete(name)]. *)
Definition hanldeInputBlur (s : State) : State * list Call :=
  ({| name := name s; editing := false |}, [onEditComplete (name s)]).

Definition setName (value : string) (s : State) : State :=
  {| name := value; editing := editing s |}.

Definition step (ev : Event) (s : State) : option (State * list Call) :=
  match ev, body (render false s) with
  | Click, _ => Some (s, [onClick])
  | DoubleClick, Span _ => Some (handleDoubleClick s, [])
  | Change value, Input _ => Some (setName value s, [])
  | Blur, Input _ => Some (hanldeInputBlur s)
  | _, _ => None
  end.

(** Runs the events in order, collecting the calls. *)
Fixpoint run (evs : list Event) (s : State) : option (State * list Call) :=
  match evs with
  | [] => Some (s, [])
  | ev :: evs' =>
      match step ev s with
      | Some (s', calls) =>
          match run evs' s' with
          | Some (s'', calls') => Some (s'', (calls ++ calls')%list)
          | None => None
          end
      | None => None
      end
  end.

End FileNameItem.

Module FileNameList.

(** The calls made on the playground context. *)
Inductive ContextCall :=
| updateFileName (prevName name : string)
| setSelectedFileName (name : string).

Definition handleEditComplete (name prevName : string) : list ContextCall :=
  [updateFileName prevName name; setSelectedFileName name].

(** [key={item + index}]: the name followed by the decimal index. *)
Definition key (item : string) (index : nat) : string :=
  item ++ JS.decimal (Z.of_nat index).

Fixpoint keys_from (index : nat) (tabs : list string) : list string :=
  match tabs with
  | [] => []
  | item :: rest => key item index :: keys_from (S index) rest
  end.

(** The keys of [tabs.map((item, index) => ...)]. *)
Definition keys (tabs : list string) : list string := keys_from 0 tabs.

(** [actived={selectedFileName === item}]. *)
Definition actived (selectedFileName item : string) : bool :=
  String.eqb selectedFileName item.

(** The [onClick] and [onEditComplete] props handed to the tab of [item]. *)
Definition forward (item : string) (c : FileNameItem.Call)
  : list ContextCall :=
  match c with
  | FileNameItem.onClick => [setSelectedFileName item]
  | FileNameItem.onEditComplete name => handleEditComplete name item
  end.

End FileNameList.

(** Other code setting attributes [(name, value)] of node [n], one after the
    other. *)
Definition attribute_changes (n : NodeId) (l : list (string * string))
  : list Event :=
  map (fun nv => SetAttribute n (fst nv) (snd nv)) l.

(** * Theorems *)

(** ** Numbers and options *)

(** Two numbers with different images under a test are different. *)
Ltac float_discr :=
  let H := fresh in
  intro H;
  match type of H with
  | ?x = ?y => apply (f_equal (fun z => PrimFloat.eqb z x)) in H
  end;
  vm_compute in H; discriminate H.

Example toString_integers d :
  JS.toString d 170%float = "170" /\ JS.toString d (-0)%float = "0" /\
  JS.toString d (-22)%float = "-22" /\ JS.toString d nan = "NaN".
Proof. vm_compute. repeat split; reflexivity. Qed.

Example toString_fractions :
  JS.toString Sample.expansion 2.5%float = "2.5" /\
  JS.toString Sample.expansion (-1024.0625)%float = "-1024.0625".
Proof. vm_compute. split; reflexivity. Qed.

Example Math_ceil_values :
  JS.Math_ceil 2.25%float = 3%float /\
  JS.Math_ceil (-2.25)%float = (-2)%float /\
  JS.Math_ceil (-0.5)%float = (-0)%float /\
  JS.Math_ceil 7%float = 7%float /\
  JS.Math_ceil nan = nan.
Proof. vm_compute. repeat split; reflexivity. Qed.

Example truthy_values :
  JS.truthy 0%float = false /\ JS.truthy (-0)%float = false /\
  JS.truthy nan = false /\ JS.truthy 120%float = true.
Proof. vm_compute. repeat split; reflexivity. Qed.

(** The merge leaves no field of [defaultOptions] undefined, so [required]
    never falls back on its own defaults. *)
Lemma merge_covers props :
  let m := merge props in
  p_width m <> None /\ p_height m <> None /\ p_zIndex m <> None /\
  p_rotate m <> None /\ p_gap m <> None /\
  exists ts, p_textStyle m = Some ts /\
    p_color ts <> None /\ p_fontFamily ts <> None /\
    p_fontSize ts <> None /\ p_fontWeight ts <> None.
Proof.
  destruct props as [w h t ts i z r g o]; cbn.
  repeat split; try (destruct w; discriminate); try (destruct h; discriminate);
    try (destruct z; discriminate); try (destruct r; discriminate);
    try (destruct g; discriminate).
  destruct ts as [[c ff fs fw]|]; cbn; eexists; split; try reflexivity; cbn;
    repeat split; try discriminate;
    [destruct c|destruct ff|destruct fs|destruct fw]; discriminate.
Qed.

Lemma options_width props :
  width (options_of props) = get (p_width props) 120%float.
Proof. destruct props as [[w|] h t ts i z r g o]; reflexivity. Qed.

Lemma options_height props :
  height (options_of props) = get (p_height props) 64%float.
Proof. destruct props as [w [h|] t ts i z r g o]; reflexivity. Qed.

Lemma options_image props : image (options_of props) = p_image props.
Proof. destruct props as [w h t ts [i|] z r g o]; reflexivity. Qed.

Lemma options_text props : text (options_of props) = p_text props.
Proof. destruct props as [w h [t|] ts i z r g o]; reflexivity. Qed.

(** A partial [textStyle] keeps the defaults of the fields it omits. *)
Example merge_textStyle_deep :
  let props := {| p_width := None; p_height := None; p_text := None;
                  p_textStyle := Some {| p_color := Some "red";
                                         p_fontFamily := None;
                                         p_fontSize := None;
                                         p_fontWeight := None |};
                  p_image := None; p_zIndex := None; p_rotate := None;
                  p_gap := None; p_offset := None |} in
  textStyle (options_of props) =
    {| color := "red"; fontFamily := "sans-serif";
       fontSize := Str "16px"; fontWeight := Str "normal" |}.
Proof. reflexivity. Qed.

(** ** The tile *)

Section Tile.

Variable E : Engine.
Variable options : Options.

Lemma drawText_size canvas :
  tile_width (fst (drawText E options canvas)) =
    or_num (width options) (boundW E options) /\
  tile_height (fst (drawText E options canvas)) =
    or_num (height options) (boundH E options).
Proof. split; reflexivity. Qed.

(** The calls [drawText] leaves on the context: the transform of
    [configCanvas], then the text painted at minus half the rotated width
    and minus half the tile height from the centre. *)
Lemma drawText_ops canvas :
  let W := or_num (width options) (boundW E options) in
  let H := or_num (height options) (boundH E options) in
  let r := devicePixelRatio E in
  ctx_ops (snd (drawText E options canvas)) =
    [Translate ((fst (gap options) + W) * r / 2)%float
               ((snd (gap options) + H) * r / 2)%float;
     Scale r r;
     Rotate (rotate options * JS.Math_PI / 180)%float;
     FillText (DOMString (text options))
              (- boundW E options / 2)%float (- H / 2)%float W
              (fontOf E (textStyle options))
              (color (textStyle options)) "top"].
Proof. reflexivity. Qed.

Lemma text_mode_fulfilled :
  JS.truthy_opt JS.truthy_string (image options) = false ->
  getCanvasData_canvas E options =
    (Fulfilled (fst (drawText E options createCanvas)),
     snd (drawText E options createCanvas)).
Proof.
  unfold getCanvasData_canvas. destruct (image options) as [src|]; cbn.
  - intros ->. reflexivity.
  - reflexivity.
Qed.

Lemma image_loaded_fulfilled src img :
  image options = Some src -> JS.truthy_string src = true ->
  loadImage E src = Some img ->
  exists t, getCanvasData E options = Fulfilled t /\
    (tile_width t, tile_height t) = imageSize options img.
Proof.
  intros Hi Hs Hl. unfold getCanvasData, getCanvasData_canvas.
  rewrite Hi, Hs. unfold drawImage. rewrite Hl.
  destruct (imageSize options img) as [w h]. cbn.
  eexists. split; reflexivity.
Qed.

(** When the image fails to load the promise is never settled, although
    [drawText] has painted the text on the canvas. *)
Lemma image_error_pending src :
  image options = Some src -> JS.truthy_string src = true ->
  loadImage E src = None ->
  getCanvasData_canvas E options =
    (Pending, snd (drawText E options createCanvas)).
Proof.
  intros Hi Hs Hl. unfold getCanvasData_canvas.
  rewrite Hi, Hs. unfold drawImage. rewrite Hl.
  destruct (drawText E options createCanvas). reflexivity.
Qed.

End Tile.

(** The style text and the printing of numbers are never unfolded by
    simplification. *)
Arguments wmStyle : simpl never.
Arguments JS.toString : simpl never.
Arguments getCanvasData : simpl never.

(** ** Observer lists *)

Lemma nth_error_update_observer f l : forall i j,
  nth_error (update_observer i f l) j =
    if Nat.eqb j i then option_map f (nth_error l j) else nth_error l j.
Proof.
  induction l as [|o l IH]; intros [|i] [|j]; cbn; try reflexivity.
  - destruct (Nat.eqb _ _); reflexivity.
  - apply IH.
Qed.

Lemma keeps_enqueue r o : keeps o (enqueue r o).
Proof.
  unfold keeps, enqueue. destruct (ob_observing o) eqn:H; cbn; auto.
  repeat split; auto. discriminate.
Qed.

Lemma keeps_taken o : keeps o (taken o).
Proof. unfold keeps, taken; cbn; auto. Qed.

Lemma Forall2_keeps_map f l :
  (forall o, keeps o (f o)) -> Forall2 keeps l (map f l).
Proof. intro H. induction l; cbn; constructor; auto. Qed.

Lemma keeps_refl o : keeps o o.
Proof. unfold keeps; auto. Qed.

Lemma Forall2_keeps_update f l :
  (forall o, keeps o (f o)) -> forall i, Forall2 keeps l (update_observer i f l).
Proof.
  intro H. induction l as [|o l IH]; intros [|i]; cbn; constructor; auto.
  - clear. induction l; constructor; auto using keeps_refl.
  - apply keeps_refl.
Qed.

Lemma Forall2_keeps_count l l' :
  Forall2 keeps l l' ->
  List.length (filter ob_observing l') = List.length (filter ob_observing l).
Proof.
  induction 1 as [|o o' l l' (_ & Hobs & _) _ IH]; cbn; [reflexivity|].
  rewrite Hobs. destruct (ob_observing o); cbn; congruence.
Qed.

Lemma Forall2_keeps_nth l l' :
  Forall2 keeps l l' -> forall i o',
  nth_error l' i = Some o' -> exists o, nth_error l i = Some o /\ keeps o o'.
Proof.
  induction 1 as [|o o' l l' Hk _ IH]; intros [|i] p; cbn; try discriminate.
  - intros [= <-]. eauto.
  - apply IH.
Qed.

Lemma Forall2_keeps_In l l' :
  Forall2 keeps l l' -> forall o',
  In o' l' -> exists o, In o l /\ keeps o o'.
Proof.
  induction 1 as [|o o' l l' Hk _ IH]; cbn; [tauto|].
  intros p [<-|Hin]; [eauto|]. destruct (IH p Hin) as (q & ? & ?); eauto.
Qed.

(** ** The invariant *)

Section Invariant.

Variable E : Engine.
Variable options : Options.

Lemma Inv_mounted host w : mounted host w -> Inv w.
Proof.
  intros (Hc & _ & Ho & Hcur & _ & Hcomp & Hf & Hn).
  constructor; unfold count_observing; rewrite ?Ho, ?Hc, ?Hcomp; cbn;
    auto; try lia; try tauto.
  all: intros [|i] o; discriminate.
Qed.

(** A step that keeps the observers, the reference to the current one and
    the count of finished runs, and only adds fresh children, keeps the
    invariant. *)
Lemma Inv_keeps w w' :
  Inv w ->
  Forall2 keeps (observers w) (observers w') ->
  current w' = current w -> completed w' = completed w ->
  next_node w <= next_node w' ->
  Forall (fun e => el_id e < next_node w' /\ el_id e <> container)
         (children w') ->
  Inv w'.
Proof.
  intros [Hcur Hcnt Harm Hidle Hch Hov Hcont] HF Hc Hd Hn Hch'.
  pose proof (Forall2_keeps_count _ _ HF) as Hlen.
  constructor; unfold count_observing in *; rewrite ?Hc, ?Hd, ?Hlen; auto.
  - intros i o' Hi Ho'.
    destruct (Forall2_keeps_nth _ _ HF _ _ Hi) as (o & Hio & _ & Hobs & _).
    apply (Hcur i o Hio). congruence.
  - intros o' Hin Ho'.
    destruct (Forall2_keeps_In _ _ HF _ Hin) as (o & Hino & _ & Hobs & Hrec).
    rewrite Hobs in Ho'. auto.
  - rewrite Forall_forall in *. intros o' Hin.
    destruct (Forall2_keeps_In _ _ HF _ Hin) as (o & Hino & Hwm & _).
    rewrite Hwm. destruct (Hov o Hino). split; [lia|assumption].
  - lia.
Qed.

Lemma Inv_notify r w :
  Inv w -> Inv (notify r w).
Proof.
  intro H. apply (Inv_keeps w); cbn; auto; try lia.
  - apply Forall2_keeps_map, keeps_enqueue.
  - apply H.
Qed.

Lemma length_update_observer f l : forall i,
  List.length (update_observer i f l) = List.length l.
Proof. induction l; intros [|i]; cbn; auto. Qed.

Lemma count_idle l :
  Forall (fun o => ob_observing o = false /\ ob_records o = []) l ->
  List.length (filter ob_observing l) = 0.
Proof.
  induction 1 as [|o l [Ho _] _ IH]; cbn; [reflexivity|].
  rewrite Ho. exact IH.
Qed.

Lemma Inv_append e w :
  el_id e = next_node w -> Inv w -> Inv (append e w).
Proof.
  intros He H. apply (Inv_keeps w); cbn; auto; try lia.
  - apply Forall2_keeps_map, keeps_enqueue.
  - apply Forall_app. split.
    + eapply Forall_impl; [|apply H]. cbn. intros a [? ?]. split; [lia|auto].
    + pose proof (inv_container _ H) as Hc. unfold container in *.
      constructor; [rewrite He; split; lia|constructor].
Qed.

Lemma Inv_setPosition w : Inv w -> Inv (setPosition w).
Proof.
  intro H. apply (Inv_keeps w); cbn; auto; try lia.
  - apply Forall2_keeps_map, keeps_enqueue.
  - apply H.
Qed.

(** After [disconnect] no observer is registered and no queue holds a
    record. *)
Lemma disconnect_idle w :
  Inv w ->
  Forall (fun o => ob_observing o = false /\ ob_records o = [])
         (observers (disconnect w)).
Proof.
  intros H. apply Forall_forall. intros o Hin.
  destruct (In_nth_error _ _ Hin) as [j Hj]. revert Hj. unfold disconnect.
  destruct (current w) as [i|] eqn:Hc; cbn.
  - rewrite nth_error_update_observer.
    destruct (Nat.eqb_spec j i) as [->|Hne].
    + destruct (nth_error (observers w) i); cbn; [|discriminate].
      intros [= <-]. split; reflexivity.
    + intro Hj. destruct (ob_observing o) eqn:Ho.
      * pose proof (inv_current _ H j o Hj Ho). congruence.
      * split; [reflexivity|].
        apply (inv_idle _ H o); eauto using nth_error_In.
  - intro Hj. destruct (ob_observing o) eqn:Ho.
    + pose proof (inv_current _ H j o Hj Ho). congruence.
    + split; [reflexivity|]. apply (inv_idle _ H o); eauto using nth_error_In.
Qed.

Lemma disconnect_frame w :
  children (disconnect w) = children w /\
  position (disconnect w) = position w /\
  current (disconnect w) = current w /\
  awaiting (disconnect w) = awaiting w /\
  completed (disconnect w) = completed w /\
  next_node (disconnect w) = next_node w /\
  List.length (observers (disconnect w)) = List.length (observers w).
Proof.
  unfold disconnect. destruct (current w) eqn:Hc; cbn;
    rewrite ?length_update_observer, ?Hc; repeat split; reflexivity.
Qed.

Lemma Forall_update_observer (P : Observer -> Prop) f l i :
  (forall o, P o -> P (f o)) -> Forall P l ->
  Forall P (update_observer i f l).
Proof.
  intros Hf H. revert i.
  induction H as [|o l Ho Hl IH]; intros [|i]; cbn; constructor; auto.
Qed.

Lemma disconnect_overlays (P : NodeId -> Prop) w :
  Forall (fun o => P (ob_watermarkDiv o)) (observers w) ->
  Forall (fun o => P (ob_watermarkDiv o)) (observers (disconnect w)).
Proof.
  unfold disconnect. destruct (current w); cbn; auto.
  apply Forall_update_observer. auto.
Qed.

(** Disconnecting the current observer and arming a new one on node [n]
    restores the invariant with exactly one registered observer. *)
Lemma Inv_rearm n w :
  Inv w -> n < next_node w -> n <> container ->
  Inv (finish (observe n (disconnect w))).
Proof.
  intros H Hn Hc.
  pose proof (disconnect_idle w H) as Hidle.
  destruct (disconnect_frame w) as (Hch & _ & _ & _ & _ & Hnext & _).
  assert (Hcount : count_observing (finish (observe n (disconnect w))) = 1).
  { unfold count_observing; cbn. rewrite filter_app, length_app.
    rewrite (count_idle _ Hidle). reflexivity. }
  constructor.
  - cbn. intros i o Hi Ho.
    destruct (Nat.lt_ge_cases i (List.length (observers (disconnect w))))
      as [Hlt|Hge].
    + rewrite nth_error_app1 in Hi by assumption.
      apply nth_error_In in Hi. rewrite Forall_forall in Hidle.
      destruct (Hidle o Hi). congruence.
    + rewrite nth_error_app2 in Hi by assumption.
      destruct (i - List.length (observers (disconnect w))) as [|k] eqn:Hk.
      * f_equal. lia.
      * destruct k; discriminate.
  - rewrite Hcount. lia.
  - intros _. exact Hcount.
  - cbn. intros o Hin Ho. apply in_app_or in Hin.
    destruct Hin as [Hin|[<-|[]]].
    + rewrite Forall_forall in Hidle. apply (Hidle o Hin).
    + discriminate.
  - cbn. rewrite Hch, Hnext. apply H.
  - cbn. rewrite Hnext. apply Forall_app. split.
    + apply (disconnect_overlays
               (fun d => d < next_node w /\ d <> container)), H.
    + repeat constructor; cbn; assumption.
  - cbn. rewrite Hnext. apply H.
Qed.

Lemma Inv_resume t w : Inv w -> Inv (resume E options t w).
Proof.
  intro H. unfold resume. apply Inv_rearm.
  - apply Inv_setPosition, Inv_append; [reflexivity|assumption].
  - cbn. lia.
  - cbn. pose proof (inv_container _ H). unfold container in *. lia.
Qed.

Lemma Inv_step ev w w' : Inv w -> step E options ev w = Some w' -> Inv w'.
Proof.
  intros H. destruct ev as [| |i|n|n name value|tag]; cbn.
  - intros [= <-]. apply (Inv_keeps w); cbn; auto; try apply H.
    clear. induction (observers w); constructor; auto using keeps_refl.
  - destruct (awaiting w); [discriminate|].
    destruct (getCanvasData E options) as [|t]; [discriminate|].
    intros [= <-]. apply Inv_resume, H.
  - destruct (nth_error (observers w) i) as [o|]; [|discriminate].
    destruct (ob_records o) as [|m ms]; [discriminate|].
    intros [= <-]. apply (Inv_keeps w); auto; unfold callback;
      destruct (isChanged _ _); cbn; auto; try apply H;
      apply Forall2_keeps_update, keeps_taken.
  - destruct (has_child n w); [|discriminate].
    intros [= <-]. apply (Inv_keeps w); cbn; auto.
    + apply Forall2_keeps_map, keeps_enqueue.
    + pose proof (inv_children _ H) as Hc. rewrite Forall_forall in *.
      intros e He. apply filter_In in He. apply Hc, He.
  - destruct (Nat.eqb n container || has_child n w); [|discriminate].
    intros [= <-]. apply (Inv_keeps w); cbn; auto.
    + apply Forall2_keeps_map, keeps_enqueue.
    + pose proof (inv_children _ H) as Hc. rewrite Forall_forall in *.
      intros e He. apply in_map_iff in He. destruct He as (e0 & <- & He0).
      unfold set_attr_of. destruct (Nat.eqb (el_id e0) n); cbn; apply Hc, He0.
  - intros [= <-]. apply (Inv_append {| el_id := next_node w; el_tag := tag;
                                        el_attrs := [] |} w eq_refl H).
Qed.

Theorem reachable_Inv w : reachable E options w -> Inv w.
Proof.
  induction 1 as [host w Hm|ev w w' _ IH Hs].
  - eapply Inv_mounted, Hm.
  - eapply Inv_step; eassumption.
Qed.

Lemma run_reachable evs : forall w w',
  reachable E options w -> run E options evs w = Some w' ->
  reachable E options w'.
Proof.
  induction evs as [|ev evs IH]; cbn; intros w w' Hr.
  - intros [= <-]. assumption.
  - destruct (step E options ev w) as [w1|] eqn:Hs; [|discriminate].
    apply IH. eapply reach_step; eassumption.
Qed.

End Invariant.

(** ** One run of [drawWatermark] *)

Section Render.

Local Open Scope list_scope.

Variable E : Engine.
Variable options : Options.

#[local] Abbreviation resume := (resume E options).
#[local] Abbreviation step := (step E options).
#[local] Abbreviation run := (run E options).
#[local] Abbreviation reachable := (reachable E options).
#[local] Abbreviation watermarkDiv := (watermarkDiv E options).

Lemma resume_frame t w :
  children (resume t w) = children w ++ [watermarkDiv t w] /\
  position (resume t w) = Some "relative" /\
  current (resume t w) = Some (List.length (observers w)) /\
  awaiting (resume t w) = Nat.pred (awaiting w) /\
  completed (resume t w) = S (completed w) /\
  next_node (resume t w) = S (next_node w) /\
  List.length (observers (resume t w)) = S (List.length (observers w)).
Proof.
  unfold resume.
  destruct (disconnect_frame (setPosition (append (watermarkDiv t w) w)))
    as (Hc & Hp & _ & Ha & Hd & Hn & Hl).
  cbn in *. rewrite length_app, ?length_map in *. cbn.
  rewrite Hc, Hp, Ha, Hd, Hn, Hl, Nat.add_1_r. repeat split; reflexivity.
Qed.

(** After a run the new observer is the last one, it is registered on the
    new overlay, and no observer holds a record. *)
Lemma resume_observers t w :
  Inv w ->
  nth_error (observers (resume t w)) (List.length (observers w)) =
    Some {| ob_watermarkDiv := next_node w;
            ob_observing := true; ob_records := [] |} /\
  Forall (fun o => ob_records o = []) (observers (resume t w)) /\
  count_observing (resume t w) = 1.
Proof.
  intro H.
  assert (H1 : Inv (setPosition (append (watermarkDiv t w) w))).
  { apply Inv_setPosition, Inv_append; [reflexivity|assumption]. }
  pose proof (disconnect_idle _ H1) as Hidle.
  destruct (disconnect_frame (setPosition (append (watermarkDiv t w) w)))
    as (_ & _ & _ & _ & _ & _ & Hl).
  cbn in Hl. rewrite !length_map in Hl.
  unfold resume, count_observing. cbn. repeat split.
  - rewrite nth_error_app2 by lia. rewrite Hl, Nat.sub_diag. reflexivity.
  - apply Forall_app. split.
    + eapply Forall_impl; [|exact Hidle]. cbn. tauto.
    + repeat constructor.
  - rewrite filter_app, length_app, (count_idle _ Hidle). reflexivity.
Qed.

Lemma step_Settle w w' :
  step Settle w = Some w' ->
  exists t, getCanvasData E options = Fulfilled t /\
            0 < awaiting w /\ w' = resume t w.
Proof.
  cbn. destruct (awaiting w); [discriminate|].
  destruct (getCanvasData E options) as [|t]; [discriminate|].
  intros [= <-]. exists t. repeat split. lia.
Qed.

(** If the tile promise stays pending, no run of [drawWatermark] ever gets
    past its [await]: nothing is rendered and no observer is created. *)
Lemma pending_never_completes w :
  getCanvasData E options = Pending ->
  reachable w ->
  completed w = 0 /\ observers w = [] /\ position w = None /\ current w = None.
Proof.
  intros Hp. induction 1 as [host w Hm|ev w w' _ (Hc & Ho & Hpos & Hcur) Hs].
  - destruct Hm as (_ & ? & ? & ? & _ & ? & _). auto.
  - destruct ev as [| |i|n|n name value|tag]; cbn in Hs.
    + injection Hs as <-. auto.
    + rewrite Hp in Hs. destruct (awaiting w); discriminate.
    + rewrite Ho in Hs. destruct i; discriminate.
    + destruct (has_child n w); [|discriminate]. injection Hs as <-.
      cbn. rewrite Ho. auto.
    + destruct (_ || _); [|discriminate]. injection Hs as <-.
      cbn. rewrite Ho. auto.
    + injection Hs as <-. cbn. rewrite Ho. auto.
Qed.

End Render.

(** ** The tamper classifier *)

Lemma flag_iff wm m :
  flag wm m = true <->
  In wm (removedNodes m) \/ (mr_type m = attributes /\ mr_target m = wm).
Proof.
  unfold flag. split.
  - destruct (MutationType_eqb (mr_type m) attributes
              && Nat.eqb (mr_target m) wm) eqn:Ha.
    + intros _. right. apply andb_true_iff in Ha. destruct Ha as [Ht Hn].
      apply Nat.eqb_eq in Hn. split; [|assumption].
      destruct (mr_type m); [reflexivity|discriminate|discriminate].
    + destruct (negb _); [|discriminate].
      intro Hex. left. apply existsb_exists in Hex.
      destruct Hex as (n & Hin & Hn). apply Nat.eqb_eq in Hn.
      subst n. exact Hin.
  - intros [Hin|[Ht Hn]].
    + destruct (_ && _); [reflexivity|].
      destruct (removedNodes m) as [|a l] eqn:Hr; [destruct Hin|]. cbn [negb List.length Nat.eqb].
      apply existsb_exists. exists wm. split; [assumption|apply Nat.eqb_refl].
    + rewrite Ht, Hn, Nat.eqb_refl. reflexivity.
Qed.

Lemma isChanged_iff wm mutations :
  isChanged wm mutations = true <->
  exists m, In m mutations /\
    (In wm (removedNodes m) \/ (mr_type m = attributes /\ mr_target m = wm)).
Proof.
  unfold isChanged. rewrite existsb_exists.
  split; intros (m & Hin & H); exists m; (split; [assumption|]);
    apply flag_iff; assumption.
Qed.

Lemma isChanged_app wm l1 l2 :
  isChanged wm (l1 ++ l2) = isChanged wm l1 || isChanged wm l2.
Proof. apply existsb_app. Qed.

(** The records of [drawWatermark]'s own changes to the container classify
    as unchanged for every overlay. *)
Lemma own_records_unchanged wm n :
  wm <> container ->
  isChanged wm [appended n; attribute_set container] = false.
Proof.
  intro H. cbn. unfold flag; cbn.
  destruct wm; [exfalso; apply H; reflexivity|reflexivity].
Qed.

Lemma removed_changed wm : isChanged wm [removed wm] = true.
Proof. cbn. unfold flag; cbn. rewrite Nat.eqb_refl. reflexivity. Qed.

Lemma removed_other_unchanged wm n :
  n <> wm -> isChanged wm [removed n] = false.
Proof.
  intro H. cbn. unfold flag; cbn.
  destruct (Nat.eqb_spec n wm); [congruence|reflexivity].
Qed.

Lemma attribute_changed wm : isChanged wm [attribute_set wm] = true.
Proof. cbn. unfold flag; cbn. rewrite Nat.eqb_refl. reflexivity. Qed.

Lemma attribute_other_unchanged wm n :
  n <> wm -> isChanged wm [attribute_set n] = false.
Proof.
  intro H. cbn. unfold flag; cbn.
  destruct (Nat.eqb_spec n wm); [congruence|reflexivity].
Qed.

Lemma appended_unchanged wm n : isChanged wm [appended n] = false.
Proof. reflexivity. Qed.

(** ** Tampering and re-rendering *)

Section Tamper.

Variable E : Engine.
Variable options : Options.

Local Open Scope list_scope.

#[local] Abbreviation resume := (resume E options).
#[local] Abbreviation step := (step E options).
#[local] Abbreviation run := (run E options).
#[local] Abbreviation reachable := (reachable E options).
#[local] Abbreviation watermarkDiv := (watermarkDiv E options).

Lemma step_Deliver i w w' :
  step (Deliver i) w = Some w' ->
  exists o, nth_error (observers w) i = Some o /\ ob_records o <> [] /\
    w' = callback (ob_watermarkDiv o) (ob_records o)
           (set_observers (update_observer i taken (observers w)) w).
Proof.
  cbn. destruct (nth_error (observers w) i) as [o|]; [|discriminate].
  destruct (ob_records o) as [|m ms] eqn:Hr; [discriminate|].
  intros [= <-]. exists o. rewrite Hr. repeat split. discriminate.
Qed.

Lemma callback_frame wm ms w :
  awaiting (callback wm ms w) =
    (if isChanged wm ms then S (awaiting w) else awaiting w) /\
  children (callback wm ms w) = children w /\
  completed (callback wm ms w) = completed w /\
  next_node (callback wm ms w) = next_node w /\
  observers (callback wm ms w) = observers w.
Proof. unfold callback. destruct (isChanged wm ms); repeat split. Qed.

(** One record reaching the only registered observer, then handed over. *)
Lemma deliver_after_notify r x i d :
  nth_error (observers x) i =
    Some {| ob_watermarkDiv := d; ob_observing := true; ob_records := [] |} ->
  exists x', step (Deliver i) (notify r x) = Some x' /\
    awaiting x' = (if isChanged d [r] then S (awaiting x) else awaiting x) /\
    children x' = children x /\ completed x' = completed x /\
    next_node x' = next_node x.
Proof.
  intro H. cbn. rewrite nth_error_map, H. cbn.
  eexists. split; [reflexivity|].
  destruct (callback_frame d [r]
              (set_observers
                 (update_observer i taken (map (enqueue r) (observers x)))
                 (notify r x))) as (Ha & Hc & Hd & Hn & _).
  rewrite Ha, Hc, Hd, Hn. repeat split.
Qed.

Lemma has_child_app n e w :
  has_child n (set_children (children w ++ [e]) w) =
    has_child n w || Nat.eqb (el_id e) n.
Proof. unfold has_child. cbn. rewrite existsb_app. cbn. rewrite orb_false_r. reflexivity. Qed.

Lemma filter_fresh n (l : list Element) :
  Forall (fun e => el_id e < n) l ->
  filter (fun e => negb (Nat.eqb (el_id e) n)) l = l.
Proof.
  induction 1 as [|e l He _ IH]; cbn; [reflexivity|].
  destruct (Nat.eqb_spec (el_id e) n); [lia|]. cbn. rewrite IH. reflexivity.
Qed.

Lemma children_below w :
  Inv w -> Forall (fun e => el_id e < next_node w) (children w).
Proof.
  intro H. eapply Forall_impl; [|apply (inv_children _ H)]. cbn. tauto.
Qed.

Lemma children_fresh w :
  Inv w -> ~ In (next_node w) (map el_id (children w)).
Proof.
  intros H Hin. apply in_map_iff in Hin. destruct Hin as (e & He & Hin).
  pose proof (children_below w H) as Hb. rewrite Forall_forall in Hb.
  specialize (Hb e Hin). lia.
Qed.

Lemma run_cons ev evs w :
  run (ev :: evs) w =
    match step ev w with
    | Some w' => run evs w'
    | None => None
    end.
Proof. reflexivity. Qed.

Lemma run_one ev w : run [ev] w = step ev w.
Proof. rewrite run_cons. destruct (step ev w); reflexivity. Qed.

Lemma run_two a b w x :
  step a w = Some x -> run [a; b] w = step b x.
Proof. intro H. rewrite run_cons, H. apply run_one. Qed.

Lemma run_two_inv a b w w2 :
  run [a; b] w = Some w2 ->
  exists x, step a w = Some x /\ step b x = Some w2.
Proof.
  rewrite run_cons. destruct (step a w) as [x|]; [|discriminate].
  rewrite run_one. eauto.
Qed.

Lemma step_RemoveChild n w :
  step (RemoveChild n) w =
    if has_child n w
    then Some (notify (removed n)
                 (set_children
                    (filter (fun e => negb (Nat.eqb (el_id e) n))
                            (children w)) w))
    else None.
Proof. reflexivity. Qed.

Lemma step_SetAttribute n name value w :
  step (SetAttribute n name value) w =
    if Nat.eqb n container || has_child n w
    then Some (notify (attribute_set n)
                 (set_children
                    (map (set_attr_of n name value) (children w)) w))
    else None.
Proof. reflexivity. Qed.

(** What tampering with the overlay of the last run, or with anything
    else in the container, does to the world [w1] that run left. *)
Lemma tamper_after_render w t :
  Inv w ->
  let w1 := resume t w in
  let d := next_node w in
  let i := List.length (observers w) in
  (exists w2, run [RemoveChild d; Deliver i] w1 = Some w2 /\
     awaiting w2 = S (awaiting w1) /\ completed w2 = completed w1 /\
     children w2 = children w /\ next_node w2 = next_node w1) /\
  (forall name value, exists w2,
     run [SetAttribute d name value; Deliver i] w1 = Some w2 /\
     awaiting w2 = S (awaiting w1)) /\
  (forall n name value w2, n <> d ->
     run [SetAttribute n name value; Deliver i] w1 = Some w2 ->
     awaiting w2 = awaiting w1) /\
  (forall n w2, n <> d ->
     run [RemoveChild n; Deliver i] w1 = Some w2 ->
     awaiting w2 = awaiting w1).
Proof.
  intros H w1 d i.
  destruct (resume_frame E options t w) as (Hch & _ & _ & _ & _ & Hn & _).
  destruct (resume_observers E options t w H) as (Hnth & _ & _).
  fold w1 in Hch, Hn, Hnth. fold i d in Hnth.
  assert (Hdd : d = next_node w) by reflexivity. clearbody w1 d i.
  assert (Hd : has_child d w1 = true).
  { unfold has_child. rewrite Hch, existsb_app. cbn.
    rewrite Hdd, Nat.eqb_refl. apply orb_true_r. }
  assert (Hobs : forall c, nth_error (observers (set_children c w1)) i =
            Some {| ob_watermarkDiv := d; ob_observing := true;
                    ob_records := [] |}) by (intro c; exact Hnth).
  repeat split.
  - destruct (deliver_after_notify (removed d) _ i d (Hobs
                (filter (fun e => negb (Nat.eqb (el_id e) d)) (children w1))))
      as (x & Hx & Ha & Hc & Hcomp & Hnext).
    exists x. rewrite removed_changed in Ha. cbn in Ha, Hc, Hcomp, Hnext.
    repeat split; try assumption.
    + erewrite run_two; [exact Hx|]. rewrite step_RemoveChild, Hd. reflexivity.
    + rewrite Hc, Hch, filter_app, Hdd,
        (filter_fresh _ _ (children_below w H)).
      cbn. rewrite Nat.eqb_refl. cbn. apply app_nil_r.
  - intros name value.
    destruct (deliver_after_notify (attribute_set d) _ i d (Hobs
                (map (set_attr_of d name value) (children w1))))
      as (x & Hx & Ha & _).
    exists x. rewrite attribute_changed in Ha. split; [|assumption].
    erewrite run_two; [exact Hx|].
    rewrite step_SetAttribute, Hd, orb_true_r. reflexivity.
  - intros n name value w2 Hne Hrun.
    apply run_two_inv in Hrun. destruct Hrun as (y & Hy & Hrun).
    rewrite step_SetAttribute in Hy.
    destruct (Nat.eqb n container || has_child n w1); [|discriminate].
    injection Hy as <-.
    destruct (deliver_after_notify (attribute_set n) _ i d (Hobs
                (map (set_attr_of n name value) (children w1))))
      as (x & Hx & Ha & _).
    rewrite Hx in Hrun. injection Hrun as <-.
    rewrite (attribute_other_unchanged d n Hne) in Ha. exact Ha.
  - intros n w2 Hne Hrun.
    apply run_two_inv in Hrun. destruct Hrun as (y & Hy & Hrun).
    rewrite step_RemoveChild in Hy.
    destruct (has_child n w1); [|discriminate].
    injection Hy as <-.
    destruct (deliver_after_notify (removed n) _ i d (Hobs
                (filter (fun e => negb (Nat.eqb (el_id e) n)) (children w1))))
      as (x & Hx & Ha & _).
    rewrite Hx in Hrun. injection Hrun as <-.
    rewrite (removed_other_unchanged d n Hne) in Ha. exact Ha.
Qed.

End Tamper.

(** * The properties of the specification *)

(** ** Tile size and overlay style *)

(** C3, as stated, fails: a caller who passes neither width nor height gets
    the default 120 x 64 tile, not the rotated bounding box of the text
    (22 x 23 for "hi" in the sample font). *)
Lemma text_tile_default_size :
  ~ text_tile_is_rotated_box Sample.engine (Sample.props emptyProps (Some "hi") None).
Proof.
  intro H. destruct (H eq_refl eq_refl eq_refl) as (t & Ht & Hw & _).
  vm_compute in Ht. injection Ht as <-. revert Hw. vm_compute. float_discr.
Qed.

(** C3 (amended).  In text mode the promise is fulfilled with a tile whose
    width is the caller's width when that is truthy, 120 when the caller
    passes none, and the rotated bound
    [ceil(|sin(theta) * textHeight| + |cos(theta) * textWidth|)] only when
    the caller passes a falsy width (0 or NaN); likewise the height, with
    default 64 and bound
    [ceil(|sin(theta) * textWidth| + |textHeight * cos(theta)|)]. *)
Theorem text_tile_size E props :
  JS.truthy_opt JS.truthy_string (p_image props) = false ->
  let o := options_of props in
  let m := measureText E (fontOf E (textStyle o)) (DOMString (text o)) in
  let theta := (rotate o * JS.Math_PI / 180)%float in
  let textWidth := tm_width m in
  let textHeight := (fontBoundingBoxAscent m + fontBoundingBoxDescent m)%float in
  exists t, getCanvasData E o = Fulfilled t /\
    tile_width t =
      match p_width props with
      | None => 120%float
      | Some w =>
          if JS.truthy w then w
          else JS.Math_ceil (JS.Math_abs (Math_sin E theta * textHeight)
                             + JS.Math_abs (Math_cos E theta * textWidth))%float
      end /\
    tile_height t =
      match p_height props with
      | None => 64%float
      | Some h =>
          if JS.truthy h then h
          else JS.Math_ceil (JS.Math_abs (Math_sin E theta * textWidth)
                             + JS.Math_abs (textHeight * Math_cos E theta))%float
      end.
Proof.
  intros Hi o m theta textWidth textHeight.
  assert (Hi' : JS.truthy_opt JS.truthy_string (image o) = false).
  { unfold o. rewrite options_image. exact Hi. }
  exists (fst (drawText E o createCanvas)). split.
  - unfold getCanvasData. rewrite (text_mode_fulfilled E o Hi'). reflexivity.
  - destruct (drawText_size E o createCanvas) as [-> ->].
    unfold o at 1 3. rewrite options_width, options_height.
    split.
    + destruct (p_width props) as [w|]; reflexivity.
    + destruct (p_height props) as [h|]; reflexivity.
Qed.

Lemma text_tile_size_witness :
  let props := {| p_width := Some 0%float; p_height := None;
                  p_text := Some "hi"; p_textStyle := None; p_image := None;
                  p_zIndex := None; p_rotate := None; p_gap := None;
                  p_offset := None |} in
  exists t, getCanvasData Sample.engine (options_of props) = Fulfilled t /\
            tile_width t = 22%float /\ tile_height t = 64%float.
Proof.
  intro props.
  destruct (text_tile_size Sample.engine props eq_refl) as (t & Ht & Hw & Hh).
  exists t. split; [exact Ht|]. split; [rewrite Hw|rewrite Hh];
    vm_compute; reflexivity.
Defined.

(** C4, as stated, fails: a caller who passes only [width: 200] for a
    100 x 50 image gets the default height 64, not 100. *)
Lemma image_tile_default_height :
  ~ image_tile_keeps_ratio Sample.engine
      {| p_width := Some 200%float; p_height := None; p_text := None;
         p_textStyle := None; p_image := Some "logo.png"; p_zIndex := None;
         p_rotate := None; p_gap := None; p_offset := None |}.
Proof.
  intro H.
  destruct (H "logo.png" _ 200%float eq_refl eq_refl eq_refl eq_refl)
    as (t & Ht & Hh).
  vm_compute in Ht. injection Ht as <-. revert Hh. vm_compute. float_discr.
Qed.

(** C4 (amended).  When the image loads with intrinsic size [iw] x [ih],
    the promise is fulfilled with a tile whose width and height are the
    merged ones (the caller's, else the defaults 120 and 64) when both are
    truthy - so a caller who passes exactly one of them gets the default for
    the other.  Only a falsy merged dimension (the caller passed 0 or NaN)
    is computed from the other one: [height = ih / iw * width] when the
    width is truthy, otherwise [width = iw / ih * height]. *)
Theorem image_tile_size E props src img :
  p_image props = Some src -> JS.truthy_string src = true ->
  loadImage E src = Some img ->
  let w := get (p_width props) 120%float in
  let h := get (p_height props) 64%float in
  exists t, getCanvasData E (options_of props) = Fulfilled t /\
    (tile_width t, tile_height t) =
      if JS.truthy w && JS.truthy h then (w, h)
      else if JS.truthy w
           then (w, (img_height img / img_width img * w)%float)
           else ((img_width img / img_height img * h)%float, h).
Proof.
  intros Hi Hs Hl w h.
  destruct (image_loaded_fulfilled E (options_of props) src img) as (t & Ht & Hsz);
    [rewrite options_image; exact Hi|exact Hs|exact Hl|].
  exists t. split; [exact Ht|]. rewrite Hsz. unfold imageSize.
  rewrite options_width, options_height. fold w h.
  destruct (JS.truthy w), (JS.truthy h); reflexivity.
Qed.

Lemma image_tile_size_witness :
  let props := {| p_width := Some 200%float; p_height := Some 0%float;
                  p_text := None; p_textStyle := None;
                  p_image := Some "logo.png"; p_zIndex := None;
                  p_rotate := None; p_gap := None; p_offset := None |} in
  exists t, getCanvasData Sample.engine (options_of props) = Fulfilled t /\
            (tile_width t, tile_height t) = (200%float, 100%float).
Proof.
  intro props.
  exact (image_tile_size Sample.engine props "logo.png"
           {| img_src := "logo.png"; img_width := 100%float;
              img_height := 50%float |}
           eq_refl eq_refl eq_refl).
Defined.

Lemma or_num_truthy a b : JS.truthy a = true -> or_num a b = a.
Proof. unfold or_num. intros ->. reflexivity. Qed.

Lemma drawText_style E options canvas :
  let W := or_num (width options) (boundW E options) in
  let H := or_num (height options) (boundH E options) in
  let sw := JS.toString (digits E) (fst (gap options) + W)%float ++ "px" in
  let sh := JS.toString (digits E) (snd (gap options) + H)%float ++ "px" in
  style_width (snd (drawText E options canvas)) =
    (if CSS.nonnegative_px sw then Some sw else style_width canvas) /\
  style_height (snd (drawText E options canvas)) =
    (if CSS.nonnegative_px sh then Some sh else style_height canvas) /\
  base64Url (fst (drawText E options canvas)) =
    toDataURL E (snd (drawText E options canvas)).
Proof. repeat split; reflexivity. Qed.

(** C5.  With [offset: [10, 20]] the style of the overlay carries the bare
    numbers: [left:10], [top:20] and [calc(100% - 10)], with no [px] unit,
    because ["px"] is appended to the fallback [0] only.  Without an offset
    the lengths are [0px]. *)
Theorem offset_without_unit E t :
  let o := options_of
             {| p_width := None; p_height := None;
                p_text := Some "CONFIDENTIAL"; p_textStyle := None;
                p_image := None; p_zIndex := None; p_rotate := None;
                p_gap := None; p_offset := Some (10%float, 20%float) |} in
  offsetLeft E o = Num 10%float /\ offsetTop E o = Num 20%float /\
  offsetLeft E (options_of emptyProps) = Str "0px" /\
  wmStyle E o t =
    nl ++ "      width:calc(100% - 10);" ++
    nl ++ "      height:calc(100% - 20);" ++
    nl ++ "      position:absolute;" ++
    nl ++ "      top:20;" ++
    nl ++ "      left:10;" ++
    nl ++ "      bottom:0;" ++
    nl ++ "      right:0;" ++
    nl ++ "      pointer-events: none;" ++
    nl ++ "      z-index:9;" ++
    nl ++ "      background-position: 0 0;" ++
    nl ++ "      background-size:"
       ++ JS.toString (digits E) (100 + tile_width t)%float ++ "px "
       ++ JS.toString (digits E) (100 + tile_height t)%float ++ "px;" ++
    nl ++ "      background-repeat: repeat;" ++
    nl ++ "      background-image:url(" ++ base64Url t ++ ")".
Proof. intro o. split; [|split; [|split]]; reflexivity. Qed.

(** With the sample tile the style contains no pixel length for [left]. *)
Example offset_style_sample :
  let o := options_of
             {| p_width := None; p_height := None;
                p_text := Some "CONFIDENTIAL"; p_textStyle := None;
                p_image := None; p_zIndex := None; p_rotate := None;
                p_gap := None; p_offset := Some (10%float, 20%float) |} in
  match getCanvasData Sample.engine o with
  | Fulfilled t =>
      JS.includes (wmStyle Sample.engine o t) "left:10px" = false /\
      JS.includes (wmStyle Sample.engine o t) "left:10;" = true /\
      JS.includes (wmStyle Sample.engine o t) "width:calc(100% - 10);" = true
  | Pending => False
  end.
Proof. vm_compute. repeat split; reflexivity. Qed.


(** ** Image load failure *)

(** C1.  With an image that fails to load, [img.onerror] paints the text on
    the canvas but nothing settles the promise of [getCanvasData]: the run of
    [drawWatermark] started on mount never continues, so in every world the
    component can reach no run has completed, the container's position is
    unset and no observer exists. *)
Theorem image_error_never_renders :
  let o := options_of (Sample.props emptyProps (Some "CONFIDENTIAL")
                                    (Some "missing.png")) in
  loadImage Sample.engine "missing.png" = None /\
  getCanvasData Sample.engine o = Pending /\
  ctx_ops (snd (getCanvasData_canvas Sample.engine o)) =
    ctx_ops (snd (drawText Sample.engine o createCanvas)) /\
  In (FillText "CONFIDENTIAL" (-48)%float (-32)%float 120%float
               "normal 16px sans-serif" "rgba(0, 0, 0, 0.15)" "top")
     (ctx_ops (snd (getCanvasData_canvas Sample.engine o))) /\
  run Sample.engine o [Mount; Settle] Sample.page = None /\
  forall w, reachable Sample.engine o w ->
            step Sample.engine o Settle w = None /\
            completed w = 0 /\ position w = None /\ observers w = [].
Proof.
  intro o.
  assert (Hp : getCanvasData Sample.engine o = Pending) by reflexivity.
  split; [reflexivity|]. split; [exact Hp|]. split; [reflexivity|].
  split; [vm_compute; tauto|]. split; [reflexivity|].
  intros w Hw.
  destruct (pending_never_completes _ _ w Hp Hw) as (Hc & Ho & Hpos & _).
  repeat split; try assumption.
  cbn. rewrite Hp. destruct (awaiting w); reflexivity.
Qed.

(** ** The observer and the overlay across runs *)

Section Runs.

Variable E : Engine.
Variable options : Options.

Local Open Scope list_scope.

Lemma count_notify r w : count_observing (notify r w) = count_observing w.
Proof.
unfold count_observing. cbn.
apply Forall2_keeps_count, Forall2_keeps_map, keeps_enqueue.
Qed.

Lemma enqueue_observing r o :
ob_observing o = true ->
enqueue r o = {| ob_watermarkDiv := ob_watermarkDiv o; ob_observing := true;
                 ob_records := ob_records o ++ [r] |}.
Proof. unfold enqueue. intros ->. reflexivity. Qed.

Lemma step_Settle_enabled w t :
  0 < awaiting w -> getCanvasData E options = Fulfilled t ->
  step E options Settle w = Some (resume E options t w).
Proof.
  intros Ha Ht. cbn [step]. rewrite Ht.
  destruct (awaiting w); [lia|reflexivity].
Qed.

(** As many runs as are waiting can continue one after the other; each adds
    one [div]. *)
Lemma settle_chain t n : forall w,
  getCanvasData E options = Fulfilled t -> n <= awaiting w ->
  exists wn l, run E options (repeat Settle n) w = Some wn /\
    children wn = children w ++ l /\ List.length l = n /\
    Forall (fun e => el_tag e = "div") l.
Proof.
  induction n as [|n IH]; cbn [repeat]; intros w Ht Hn.
  - exists w, []. rewrite app_nil_r. repeat split. constructor.
  - destruct (resume_frame E options t w) as (Hc & _ & _ & Ha & _).
    destruct (IH (resume E options t w) Ht) as (wn & l & Hr & Hl & Hlen & Hd);
      [lia|].
    exists wn, (watermarkDiv E options t w :: l).
    rewrite run_cons, (step_Settle_enabled w t) by (assumption || lia).
    rewrite Hl, Hc, <- app_assoc. repeat split; cbn [List.length app]; auto.
Qed.

End Runs.

(** C6.  In every world the component can reach at most one observer is
    registered on the container, and exactly one once a run of
    [drawWatermark] has completed.  Inside a run the count is unchanged up
    to [disconnect], which leaves no observer registered, and [observe]
    then registers the single new one. *)
Theorem one_observer_at_a_time E options w :
  reachable E options w ->
  count_observing w <= 1 /\
  (0 < completed w -> count_observing w = 1) /\
  forall t,
    let div := watermarkDiv E options t w in
    let w1 := setPosition (append div w) in
    resume E options t w = finish (observe (el_id div) (disconnect w1)) /\
    count_observing (append div w) = count_observing w /\
    count_observing w1 = count_observing w /\
    count_observing (disconnect w1) = 0 /\
    count_observing (observe (el_id div) (disconnect w1)) = 1 /\
    count_observing (resume E options t w) = 1.
Proof.
  intro Hr. pose proof (reachable_Inv _ _ _ Hr) as H.
  split; [apply H|]. split; [apply H|]. intros t div w1.
  assert (H1 : Inv w1).
  { apply Inv_setPosition, Inv_append; [reflexivity|assumption]. }
  pose proof (count_idle _ (disconnect_idle _ H1)) as Hidle.
  assert (Ha : count_observing (append div w) = count_observing w).
  { unfold append. rewrite count_notify. reflexivity. }
  split; [reflexivity|]. split; [exact Ha|].
  split; [unfold w1, setPosition; rewrite count_notify; exact Ha|].
  split; [exact Hidle|].
  assert (Hone : count_observing (observe (el_id div) (disconnect w1)) = 1).
  { unfold count_observing. cbn [observers observe].
    rewrite filter_app, length_app, Hidle. reflexivity. }
  split; [exact Hone|exact Hone].
Qed.

(** A run of [drawWatermark] that continues after its [await] appends
    one new [div] carrying the style as the last child, leaves the earlier
    children as they were, and sets the container's position to [relative].
    The node is new: it is no child of the container and not the overlay of
    any earlier observer.  The runs still waiting each add a further [div]
    behind it, none is removed. *)
Theorem render_appends_one_overlay E options w t :
  reachable E options w -> 0 < awaiting w ->
  getCanvasData E options = Fulfilled t ->
  let div := watermarkDiv E options t w in
  exists w', step E options Settle w = Some w' /\
    children w' = (children w ++ [div])%list /\
    el_tag div = "div" /\ el_attrs div = [("style", wmStyle E options t)] /\
    ~ In (el_id div) (map el_id (children w)) /\
    el_id div <> container /\
    Forall (fun o => ob_watermarkDiv o <> el_id div) (observers w) /\
    position w' = Some "relative" /\
    forall n, n <= awaiting w' ->
      exists wn l, run E options (repeat Settle n) w' = Some wn /\
        children wn = (children w' ++ l)%list /\ List.length l = n /\
        Forall (fun e => el_tag e = "div") l.
Proof.
  intros Hr Ha Ht div. pose proof (reachable_Inv _ _ _ Hr) as H.
  destruct (resume_frame E options t w) as (Hc & Hp & _).
  exists (resume E options t w).
  split; [apply step_Settle_enabled; assumption|].
  split; [exact Hc|]. split; [reflexivity|]. split; [reflexivity|].
  split; [apply children_fresh, H|].
  split; [cbn; pose proof (inv_container _ H); unfold container in *; lia|].
  split.
  - eapply Forall_impl; [|apply (inv_overlays _ H)]. cbn. intros o [Ho _]. lia.
  - split; [exact Hp|]. intros n Hn. apply (settle_chain E options t); assumption.
Qed.

(** When the tile promise is fulfilled, two runs of [drawWatermark], with
    nothing else touching the container, append two distinct nodes with the
    same tag and the same attributes: one [style] whose text, background
    image included, is a function of the options and the engine alone. *)
Theorem renders_agree E options w t :
  getCanvasData E options = Fulfilled t ->
  exists w2 d1 d2,
    run E options [Mount; Settle; Mount; Settle] w = Some w2 /\
    children w2 = (children w ++ [d1; d2])%list /\
    el_attrs d1 = [("style", wmStyle E options t)] /\
    el_attrs d2 = el_attrs d1 /\ el_tag d2 = el_tag d1 /\
    el_id d1 <> el_id d2.
Proof.
  intro Ht.
  set (w0 := set_awaiting (S (awaiting w)) w).
  set (wb := set_awaiting (S (awaiting (resume E options t w0)))
                          (resume E options t w0)).
  destruct (resume_frame E options t w0) as (Hc0 & _ & _ & _ & _ & Hn0 & _).
  destruct (resume_frame E options t wb) as (Hc1 & _).
  exists (resume E options t wb),
         (watermarkDiv E options t w0), (watermarkDiv E options t wb).
  split.
  - rewrite run_cons. cbn [step]. fold w0.
    rewrite run_cons, (step_Settle_enabled E options w0 t)
      by (assumption || (cbn; lia)).
    rewrite run_cons. cbn [step]. fold wb.
    rewrite run_one. apply step_Settle_enabled; [cbn; lia|assumption].
  - split.
    + rewrite Hc1. change (children wb) with (children (resume E options t w0)).
      rewrite Hc0, <- app_assoc. reflexivity.
    + repeat split. cbn [el_id watermarkDiv].
      change (next_node wb) with (next_node (resume E options t w0)).
      rewrite Hn0. change (next_node w0) with (next_node w). lia.
Qed.

(** C2.  A batch handed to an observer starts a run of [drawWatermark]
    exactly when some record lists the observer's overlay among its removed
    nodes or is an attribute record targeting that overlay.  After a run the
    registered observer watches the overlay that run appended: removing that
    overlay starts exactly one run, which appends a new overlay with the same
    tag and attributes; setting an attribute of the overlay starts one run;
    setting an attribute of, or removing, any other node starts none. *)
Theorem tamper_triggers_rerender E options w t :
  reachable E options w -> 0 < awaiting w ->
  getCanvasData E options = Fulfilled t ->
  let w1 := resume E options t w in
  let overlay := watermarkDiv E options t w in
  let i := List.length (observers w) in
  (forall wm mutations,
     isChanged wm mutations = true <->
     exists m, In m mutations /\
       (In wm (removedNodes m) \/
        (mr_type m = attributes /\ mr_target m = wm))) /\
  (forall x j x', step E options (Deliver j) x = Some x' ->
     exists o, nth_error (observers x) j = Some o /\
       awaiting x' = (if isChanged (ob_watermarkDiv o) (ob_records o)
                      then S (awaiting x) else awaiting x) /\
       completed x' = completed x /\ children x' = children x) /\
  step E options Settle w = Some w1 /\
  current w1 = Some i /\
  nth_error (observers w1) i =
    Some {| ob_watermarkDiv := el_id overlay; ob_observing := true;
            ob_records := [] |} /\
  (exists w2 w3 d',
     run E options [RemoveChild (el_id overlay); Deliver i] w1 = Some w2 /\
     awaiting w2 = S (awaiting w1) /\ completed w2 = completed w1 /\
     step E options Settle w2 = Some w3 /\
     awaiting w3 = awaiting w1 /\ completed w3 = S (completed w1) /\
     children w3 = (children w ++ [d'])%list /\
     el_id d' <> el_id overlay /\ el_tag d' = el_tag overlay /\
     el_attrs d' = el_attrs overlay) /\
  (forall name value, exists w2,
     run E options [SetAttribute (el_id overlay) name value; Deliver i] w1
       = Some w2 /\
     awaiting w2 = S (awaiting w1)) /\
  (forall n name value w2, n <> el_id overlay ->
     run E options [SetAttribute n name value; Deliver i] w1 = Some w2 ->
     awaiting w2 = awaiting w1) /\
  (forall n w2, n <> el_id overlay ->
     run E options [RemoveChild n; Deliver i] w1 = Some w2 ->
     awaiting w2 = awaiting w1).
Proof.
  intros Hr Ha Ht w1 overlay i. pose proof (reachable_Inv _ _ _ Hr) as H.
  destruct (resume_frame E options t w) as (Hc & _ & Hcur & _ & _ & Hn & _).
  destruct (resume_observers E options t w H) as (Hnth & _ & _).
  destruct (tamper_after_render E options w t H)
    as ((w2 & Hrun & Haw & Hco & Hch & Hnx) & Hattr & Hsib & Hrem).
  split; [apply isChanged_iff|]. split.
  { intros x j x' Hs. destruct (step_Deliver _ _ _ _ _ Hs) as (o & Ho & _ & ->).
    destruct (callback_frame (ob_watermarkDiv o) (ob_records o)
                (set_observers (update_observer j taken (observers x)) x))
      as (-> & -> & -> & _).
    exists o. repeat split. exact Ho. }
  split.
  { cbn [step]. rewrite Ht. destruct (awaiting w); [lia|reflexivity]. }
  split; [exact Hcur|]. split; [exact Hnth|].
  split; [|split; [exact Hattr|split; [exact Hsib|exact Hrem]]].
  destruct (resume_frame E options t w2) as (Hc2 & _ & _ & Ha2 & Hd2 & _).
  exists w2, (resume E options t w2), (watermarkDiv E options t w2).
  split; [exact Hrun|]. split; [exact Haw|]. split; [exact Hco|].
  split.
  { cbn [step]. rewrite Ht, Haw. reflexivity. }
  split; [rewrite Ha2, Haw; reflexivity|].
  split; [rewrite Hd2, Hco; reflexivity|].
  split; [rewrite Hc2, Hch; reflexivity|].
  split; [|split; reflexivity].
  unfold overlay. cbn [el_id watermarkDiv]. rewrite Hnx. unfold w1.
  rewrite Hn. apply Nat.neq_succ_diag_l.
Qed.

(** C10.  The records a run of [drawWatermark] queues on a registered
    observer - one node appended to the container, one attribute of the
    container set - do not change how that observer's batch classifies, and
    they classify as unchanged for the new overlay as well.  When the run
    returns no observer holds any record, so none can be handed a batch; if
    no other run was waiting, nothing happens until other code acts. *)
Theorem render_is_not_tamper E options w t :
  reachable E options w -> 0 < awaiting w ->
  getCanvasData E options = Fulfilled t ->
  let div := watermarkDiv E options t w in
  let before_disconnect := setPosition (append div w) in
  exists w', step E options Settle w = Some w' /\
    (forall i o, nth_error (observers w) i = Some o ->
       ob_observing o = true ->
       exists o', nth_error (observers before_disconnect) i = Some o' /\
         ob_records o' =
           (ob_records o ++ [appended (el_id div); attribute_set container])%list /\
         isChanged (ob_watermarkDiv o) (ob_records o') =
           isChanged (ob_watermarkDiv o) (ob_records o)) /\
    isChanged (el_id div) [appended (el_id div); attribute_set container]
      = false /\
    Forall (fun o => ob_records o = []) (observers w') /\
    (forall i, step E options (Deliver i) w' = None) /\
    awaiting w' = Nat.pred (awaiting w) /\
    (awaiting w = 1 ->
     forall ev, ev = Settle \/ (exists i, ev = Deliver i) ->
                step E options ev w' = None).
Proof.
  intros Hr Haw Ht div before_disconnect.
  pose proof (reachable_Inv _ _ _ Hr) as H.
  destruct (resume_frame E options t w) as (_ & _ & _ & Ha & _).
  destruct (resume_observers E options t w H) as (_ & Hempty & _).
  assert (Hdeliver : forall i,
            step E options (Deliver i) (resume E options t w) = None).
  { intro i. cbn [step].
    destruct (nth_error (observers (resume E options t w)) i) as [o|] eqn:Hi;
      [|reflexivity].
    rewrite Forall_forall in Hempty.
    rewrite (Hempty o (nth_error_In _ _ Hi)). reflexivity. }
  assert (Hfresh : next_node w <> container).
  { pose proof (inv_container _ H). unfold container in *. lia. }
  exists (resume E options t w).
  split; [apply step_Settle_enabled; assumption|].
  split.
  { intros i o Hi Ho.
    assert (Hwm : ob_watermarkDiv o <> container).
    { pose proof (inv_overlays _ H) as Hov. rewrite Forall_forall in Hov.
      apply (Hov o (nth_error_In _ _ Hi)). }
    eexists. split.
    - unfold before_disconnect.
      cbn [observers setPosition append notify set_observers].
      rewrite !nth_error_map, Hi. cbn [option_map].
      rewrite (enqueue_observing _ o Ho), enqueue_observing by reflexivity.
      reflexivity.
    - cbn [ob_records]. rewrite <- app_assoc. split; [reflexivity|].
      cbn [app]. rewrite isChanged_app, own_records_unchanged by assumption.
      apply orb_false_r. }
  split; [apply own_records_unchanged; exact Hfresh|].
  split; [exact Hempty|]. split; [exact Hdeliver|]. split; [exact Ha|].
  intros H1 ev [->|[i ->]]; [|apply Hdeliver].
  cbn [step]. rewrite Ha, H1. reflexivity.
Qed.

(** ** The sample page *)

Lemma page_reachable E options : reachable E options Sample.page.
Proof.
  apply reach_mounted with (host := children Sample.page).
  unfold mounted, container. cbn. repeat split; try lia.
  repeat constructor; cbn; lia.
Qed.

Lemma after_reachable evs :
  reachable Sample.engine (options_of Sample.confidential) (Sample.after evs).
Proof.
  unfold Sample.after.
  destruct (run Sample.engine (options_of Sample.confidential) evs Sample.page)
    as [w|] eqn:Hr; cbn [get].
  - eapply run_reachable; [apply page_reachable|exact Hr].
  - apply page_reachable.
Qed.

Example sample_tile :
  getCanvasData Sample.engine (options_of Sample.confidential)
    = Fulfilled Sample.tile.
Proof. vm_compute. reflexivity. Qed.

(** Mount, render, remove the overlay, deliver, render again: the paragraph
    and the second overlay remain, one observer is registered. *)
Example sample_heal :
  let w := Sample.after [Mount; Settle; RemoveChild 2; Deliver 0; Settle] in
  map el_id (children w) = [1; 3] /\ map ob_observing (observers w) = [false; true] /\
  current w = Some 1 /\ awaiting w = 0 /\ completed w = 2 /\
  position w = Some "relative".
Proof. vm_compute. repeat split; reflexivity. Qed.

Lemma tamper_triggers_rerender_witness :
  let o := options_of Sample.confidential in
  let w1 := resume Sample.engine o Sample.tile (Sample.after [Mount]) in
  step Sample.engine o Settle (Sample.after [Mount]) = Some w1 /\
  forall n w2, n <> 2 ->
    run Sample.engine o [RemoveChild n; Deliver 0] w1 = Some w2 ->
    awaiting w2 = 0.
Proof.
  intros o w1.
  assert (Ha : 0 < awaiting (Sample.after [Mount])) by (vm_compute; lia).
  destruct (tamper_triggers_rerender Sample.engine o (Sample.after [Mount])
              Sample.tile (after_reachable [Mount]) Ha sample_tile)
    as (_ & _ & Hs & _ & _ & _ & _ & _ & Hrem).
  split; [exact Hs|exact Hrem].
Defined.

Lemma one_observer_at_a_time_witness :
  count_observing
    (Sample.after [Mount; Settle; RemoveChild 2; Deliver 0; Settle]) = 1.
Proof.
  destruct (one_observer_at_a_time Sample.engine
              (options_of Sample.confidential) _
              (after_reachable
                 [Mount; Settle; RemoveChild 2; Deliver 0; Settle]))
    as (_ & H & _).
  apply H. vm_compute. lia.
Defined.

Lemma render_is_not_tamper_witness :
  let o := options_of Sample.confidential in
  let w := Sample.after [Mount; Settle; SetAttribute 2 "style" "opacity:0";
                         Deliver 0] in
  exists w', step Sample.engine o Settle w = Some w' /\
             step Sample.engine o (Deliver 1) w' = None /\
             awaiting w' = 0.
Proof.
  intros o w.
  assert (Ha : 0 < awaiting w) by (vm_compute; lia).
  destruct (render_is_not_tamper Sample.engine o w Sample.tile
              (after_reachable _) Ha sample_tile)
    as (w' & Hs & _ & _ & _ & Hd & Hp & _).
  exists w'. split; [exact Hs|]. split; [apply Hd|exact Hp].
Defined.

(** ** Runs that never continue *)

Section Hanging.

Variable E : Engine.
Variable options : Options.
Hypothesis hangs : getCanvasData E options = Pending.

(** While the tile promise stays pending the component's own events leave
    the container as it is: no run continues. *)
Lemma pending_internal_frame evs : forall w w',
  Forall (fun ev => internal ev = true) evs ->
  run E options evs w = Some w' ->
  children w' = children w /\ position w' = position w /\
  completed w' = completed w /\ existsb is_Settle evs = false.
Proof.
  induction evs as [|ev evs IH]; intros w w' Hint Hrun.
  - injection Hrun as <-. auto.
  - rewrite run_cons in Hrun.
    destruct (step E options ev w) as [x|] eqn:Hs; [|discriminate].
    inversion Hint as [|? ? Hev Hrest]; subst.
    destruct (IH x w' Hrest Hrun) as (Hc & Hp & Hd & Hn).
    destruct ev as [| |j|n|n name value|tag]; try discriminate Hev.
    + injection Hs as <-. cbn in *. auto.
    + cbn [step] in Hs. rewrite hangs in Hs.
      destruct (awaiting w); discriminate.
    + destruct (step_Deliver _ _ _ _ _ Hs) as (oj & _ & _ & ->).
      rewrite Hc, Hp, Hd. unfold callback.
      destruct (isChanged (ob_watermarkDiv oj) (ob_records oj)); cbn; auto.
Qed.

End Hanging.

(** C7.  With an image that fails to load a run of [drawWatermark] appends
    no overlay and does not set the container's position: the run started on
    mount waits, no event continues it, and whatever the component does by
    itself from then on the container keeps the children and the position it
    had. *)
Theorem image_error_run_appends_nothing :
  let o := options_of (Sample.props emptyProps (Some "CONFIDENTIAL")
                                    (Some "missing.png")) in
  loadImage Sample.engine "missing.png" = None /\
  getCanvasData Sample.engine o = Pending /\
  (exists w1, step Sample.engine o Mount Sample.page = Some w1 /\
     awaiting w1 = 1 /\ step Sample.engine o Settle w1 = None /\
     children w1 = children Sample.page /\ position w1 = None) /\
  forall evs w', Forall (fun ev => internal ev = true) evs ->
    run Sample.engine o evs Sample.page = Some w' ->
    children w' = children Sample.page /\ position w' = None /\
    completed w' = 0 /\ existsb is_Settle evs = false.
Proof.
  intro o.
  assert (Hp : getCanvasData Sample.engine o = Pending) by reflexivity.
  split; [reflexivity|]. split; [exact Hp|]. split.
  - eexists. split; [reflexivity|]. repeat split.
  - intros evs w' Hint Hrun.
    exact (pending_internal_frame Sample.engine o Hp evs _ _ Hint Hrun).
Qed.

(** C9.  With an image that fails to load two runs of [drawWatermark]
    produce no overlay node at all: the events mount, continue, mount,
    continue cannot happen, and after the two mounts both runs wait, the
    container has the children it had, and neither a continuation nor a
    delivery is possible. *)
Theorem image_error_two_runs_no_overlay :
  let o := options_of (Sample.props emptyProps (Some "CONFIDENTIAL")
                                    (Some "missing.png")) in
  loadImage Sample.engine "missing.png" = None /\
  getCanvasData Sample.engine o = Pending /\
  run Sample.engine o [Mount; Settle; Mount; Settle] Sample.page = None /\
  exists w2,
    run Sample.engine o [Mount; Mount] Sample.page = Some w2 /\
    awaiting w2 = 2 /\ completed w2 = 0 /\
    children w2 = children Sample.page /\
    step Sample.engine o Settle w2 = None /\
    forall i, step Sample.engine o (Deliver i) w2 = None.
Proof.
  intro o. do 3 (split; [reflexivity|]).
  eexists. split; [reflexivity|]. repeat split.
  intros [|i]; reflexivity.
Qed.

(** ** The example of the specification *)

(** C8, as stated, fails: on the sample engine "CONFIDENTIAL" measures
    96 x 18 and is painted from (-48, -32), so its box spans -32 to -14
    vertically - the top of the 64 high tile - and is not centred. *)
Lemma confidential_not_centred :
  ~ paints_centred Sample.engine (options_of Sample.confidential)
                   "CONFIDENTIAL".
Proof.
  intros (t & c & x & y & mw & f & fs & Hf & Hin & _ & Hy).
  assert (Hc : c = snd (getCanvasData_canvas Sample.engine
                          (options_of Sample.confidential)))
    by (rewrite Hf; reflexivity).
  assert (Hops : ctx_ops c =
            [Translate 170%float 114%float; Scale 2%float 2%float;
             Rotate 0%float;
             FillText "CONFIDENTIAL" (-48)%float (-32)%float 120%float
                      "normal 16px sans-serif" "rgba(0, 0, 0, 0.15)" "top"])
    by (rewrite Hc; vm_compute; reflexivity).
  assert (Hb : (- boundH Sample.engine (options_of Sample.confidential) / 2
               = -9)%float) by (vm_compute; reflexivity).
  rewrite Hops in Hin. rewrite Hb in Hy. clear Hops Hb Hc Hf.
  destruct Hin as [H|[H|[H|[H|[]]]]]; try discriminate H.
  injection H as _ H _ _ _. rewrite <- H in Hy. revert Hy. float_discr.
Qed.

(** C8 (amended).  For [{ text: "CONFIDENTIAL", gap: [50, 50], rotate: 0 }]
    the tile is the default 120 x 64 and the canvas is laid out
    170px x 114px.  A run of [drawWatermark] appends to the container a
    [div] whose style has [background-size:170px 114px] and as background
    image the export of a canvas on which "CONFIDENTIAL" is painted once,
    unrotated, with baseline [top] and at most 120 wide: horizontally
    centred on the centre of the tile (from minus half the text's bounding
    width), and with its top edge on the top edge of the tile (from minus
    half the tile height, -32), not vertically centred. *)
Theorem confidential_overlay E w :
  let o := options_of
             {| p_width := None; p_height := None;
                p_text := Some "CONFIDENTIAL"; p_textStyle := None;
                p_image := None; p_zIndex := None;
                p_rotate := Some 0%float;
                p_gap := Some (50%float, 50%float); p_offset := None |} in
  let r := devicePixelRatio E in
  exists t c w' div,
    getCanvasData_canvas E o = (Fulfilled t, c) /\
    tile_width t = 120%float /\ tile_height t = 64%float /\
    base64Url t = toDataURL E c /\
    style_width c = Some "170px" /\ style_height c = Some "114px" /\
    ctx_ops c =
      [Translate (170 * r / 2)%float (114 * r / 2)%float;
       Scale r r;
       Rotate 0%float;
       FillText "CONFIDENTIAL" (- boundW E o / 2)%float
                (- tile_height t / 2)%float 120%float
                (fontOf E (textStyle o)) "rgba(0, 0, 0, 0.15)" "top"] /\
    (- tile_height t / 2)%float = (-32)%float /\
    run E o [Mount; Settle] w = Some w' /\
    children w' = (children w ++ [div])%list /\
    el_tag div = "div" /\
    el_attrs div =
      [("style",
        nl ++ "      width:calc(100% - 0px);" ++
        nl ++ "      height:calc(100% - 0px);" ++
        nl ++ "      position:absolute;" ++
        nl ++ "      top:0px;" ++
        nl ++ "      left:0px;" ++
        nl ++ "      bottom:0;" ++
        nl ++ "      right:0;" ++
        nl ++ "      pointer-events: none;" ++
        nl ++ "      z-index:9;" ++
        nl ++ "      background-position: 0 0;" ++
        nl ++ "      background-size:170px 114px;" ++
        nl ++ "      background-repeat: repeat;" ++
        nl ++ "      background-image:url(" ++ toDataURL E c ++ ")")].
Proof.
  intros o r.
  set (t := fst (drawText E o createCanvas)).
  set (c := snd (drawText E o createCanvas)).
  assert (Hf : getCanvasData_canvas E o = (Fulfilled t, c))
    by (apply text_mode_fulfilled; reflexivity).
  assert (Ht : getCanvasData E o = Fulfilled t)
    by (unfold getCanvasData; rewrite Hf; reflexivity).
  set (w0 := set_awaiting (S (awaiting w)) w).
  destruct (resume_frame E o t w0) as (Hc & _).
  exists t, c, (resume E o t w0), (watermarkDiv E o t w0).
  split; [exact Hf|]. do 7 (split; [reflexivity|]).
  split.
  { rewrite run_cons. cbn [step]. fold w0. rewrite run_one.
    apply step_Settle_enabled; [cbn; lia|exact Ht]. }
  split; [exact Hc|]. split; reflexivity.
Qed.

(** * Further properties of the watermark *)

(** ** Self-healing *)

Section Healing.

Variable E : Engine.
Variable options : Options.
Variable t : Tile.
Hypothesis tile : getCanvasData E options = Fulfilled t.

Local Open Scope list_scope.

Lemma watermarked_resume w :
  Inv w -> watermarked E options t (resume E options t w).
Proof.
  intro H.
  destruct (resume_frame E options t w) as (Hc & _ & Hcur & _).
  destruct (resume_observers E options t w H) as (Hnth & _ & _).
  eexists (List.length (observers w)), _.
  split; [exact Hcur|]. split; [exact Hnth|]. split; [reflexivity|].
  rewrite Hc. apply in_or_app. right. left. reflexivity.
Qed.

Lemma watermarked_guarded w :
  watermarked E options t w -> guarded E options t w.
Proof. intros (i & o & ? & ? & ? & ?). exists i, o. auto. Qed.

Lemma isChanged_snoc wm ms r :
  isChanged wm ms = true -> isChanged wm (ms ++ [r]) = true.
Proof. intro H. rewrite isChanged_app, H. reflexivity. Qed.

Lemma In_filter_other n wm e (l : list Element) :
  el_id e = wm -> n <> wm -> In e l ->
  In e (filter (fun e => negb (Nat.eqb (el_id e) n)) l).
Proof.
  intros He Hn Hin. apply filter_In. split; [assumption|].
  rewrite He. destruct (Nat.eqb_spec wm n); [congruence|reflexivity].
Qed.

Lemma In_set_attr_other n name value wm e (l : list Element) :
  el_id e = wm -> n <> wm -> In e l ->
  In e (map (set_attr_of n name value) l).
Proof.
  intros He Hn Hin. apply in_map_iff. exists e. split; [|assumption].
  unfold set_attr_of. rewrite He.
  destruct (Nat.eqb_spec wm n); [congruence|reflexivity].
Qed.

(** A step other than the continuation of a run keeps the guard. *)
Lemma guarded_step ev w w' :
  Inv w -> guarded E options t w -> step E options ev w = Some w' ->
  guarded E options t w'.
Proof.
  intros H (i & o & Hcur & Hnth & Hobs & Hg) Hs.
  destruct ev as [| |j|n|n name value|tag].
  - injection Hs as <-. exists i, o.
    split; [exact Hcur|]. split; [exact Hnth|]. split; [exact Hobs|].
    destruct Hg as [Hg|[Hg|Hg]]; [left; exact Hg| |right; right; exact Hg].
    right. left. cbn. lia.
  - destruct (step_Settle _ _ _ _ Hs) as (t' & Ht' & _ & ->).
    assert (t' = t) by congruence. subst t'.
    apply watermarked_guarded, watermarked_resume, H.
  - destruct (step_Deliver _ _ _ _ _ Hs) as (oj & Hj & Hne & ->).
    destruct (callback_frame (ob_watermarkDiv oj) (ob_records oj)
                (set_observers (update_observer j taken (observers w)) w))
      as (Ha & Hc & _ & _ & Ho).
    cbn [awaiting children observers set_observers] in Ha, Hc, Ho.
    assert (Hcur' : current (callback (ob_watermarkDiv oj) (ob_records oj)
                (set_observers (update_observer j taken (observers w)) w))
              = Some i).
    { unfold callback.
      destruct (isChanged (ob_watermarkDiv oj) (ob_records oj)); exact Hcur. }
    destruct (Nat.eqb_spec i j) as [Hij|Hij].
    + subst j. assert (oj = o) by congruence. subst oj.
      exists i, (taken o).
      split; [exact Hcur'|]. split.
      { rewrite Ho, nth_error_update_observer, Nat.eqb_refl, Hnth.
        reflexivity. }
      split; [exact Hobs|]. rewrite Hc, Ha. cbn [taken ob_watermarkDiv].
      destruct Hg as [Hg|[Hg|Hg]].
      * left. exact Hg.
      * right. left.
        destruct (isChanged (ob_watermarkDiv o) (ob_records o)); lia.
      * right. left. rewrite Hg. lia.
    + exists i, o.
      split; [exact Hcur'|]. split.
      { rewrite Ho, nth_error_update_observer.
        destruct (Nat.eqb_spec i j); [contradiction|exact Hnth]. }
      split; [exact Hobs|]. rewrite Hc, Ha.
      destruct Hg as [Hg|[Hg|Hg]].
      * left. exact Hg.
      * right. left.
        destruct (isChanged (ob_watermarkDiv oj) (ob_records oj)); lia.
      * right. right. exact Hg.
  - rewrite step_RemoveChild in Hs.
    destruct (has_child n w); [|discriminate]. injection Hs as <-.
    exists i, (enqueue (removed n) o).
    split; [exact Hcur|]. split.
    { cbn. rewrite nth_error_map, Hnth. reflexivity. }
    rewrite (enqueue_observing _ o Hobs). split; [reflexivity|].
    cbn [ob_watermarkDiv ob_records children awaiting notify set_children
         set_observers].
    destruct (Nat.eq_dec n (ob_watermarkDiv o)) as [->|Hn].
    + right. right. rewrite isChanged_app, removed_changed. apply orb_true_r.
    + destruct Hg as [Hg|[Hg|Hg]].
      * left. apply (In_filter_other n (ob_watermarkDiv o)); auto.
      * right. left. exact Hg.
      * right. right. apply isChanged_snoc, Hg.
  - rewrite step_SetAttribute in Hs.
    destruct (Nat.eqb n container || has_child n w); [|discriminate].
    injection Hs as <-.
    exists i, (enqueue (attribute_set n) o).
    split; [exact Hcur|]. split.
    { cbn. rewrite nth_error_map, Hnth. reflexivity. }
    rewrite (enqueue_observing _ o Hobs). split; [reflexivity|].
    cbn [ob_watermarkDiv ob_records children awaiting notify set_children
         set_observers].
    destruct (Nat.eq_dec n (ob_watermarkDiv o)) as [->|Hn].
    + right. right. rewrite isChanged_app, attribute_changed. apply orb_true_r.
    + destruct Hg as [Hg|[Hg|Hg]].
      * left. apply (In_set_attr_other n name value (ob_watermarkDiv o)); auto.
      * right. left. exact Hg.
      * right. right. apply isChanged_snoc, Hg.
  - injection Hs as <-.
    exists i, (enqueue (appended (next_node w)) o).
    split; [exact Hcur|]. split.
    { cbn. rewrite nth_error_map, Hnth. reflexivity. }
    rewrite (enqueue_observing _ o Hobs). split; [reflexivity|].
    cbn [ob_watermarkDiv ob_records children awaiting notify set_children
         set_observers].
    destruct Hg as [Hg|[Hg|Hg]].
    + left. apply in_or_app. left. exact Hg.
    + right. left. exact Hg.
    + right. right. apply isChanged_snoc, Hg.
Qed.

Lemma completed_step ev w w' :
  step E options ev w = Some w' ->
  (ev = Settle /\ completed w' = S (completed w)) \/
  (ev <> Settle /\ completed w' = completed w).
Proof.
  intro Hs. destruct ev as [| |j|n|n name value|tag].
  - injection Hs as <-. right. split; [discriminate|reflexivity].
  - destruct (step_Settle _ _ _ _ Hs) as (t' & _ & _ & ->).
    destruct (resume_frame E options t' w) as (_ & _ & _ & _ & Hc & _).
    left. split; [reflexivity|exact Hc].
  - destruct (step_Deliver _ _ _ _ _ Hs) as (oj & _ & _ & ->).
    destruct (callback_frame (ob_watermarkDiv oj) (ob_records oj)
                (set_observers (update_observer j taken (observers w)) w))
      as (_ & _ & Hc & _).
    right. split; [discriminate|exact Hc].
  - rewrite step_RemoveChild in Hs.
    destruct (has_child n w); [|discriminate]. injection Hs as <-.
    right. split; [discriminate|reflexivity].
  - rewrite step_SetAttribute in Hs.
    destruct (Nat.eqb n container || has_child n w); [|discriminate].
    injection Hs as <-. right. split; [discriminate|reflexivity].
  - injection Hs as <-. right. split; [discriminate|reflexivity].
Qed.

Lemma reachable_guarded w :
  reachable E options w -> 0 < completed w -> guarded E options t w.
Proof.
  induction 1 as [host w Hm|ev w w' Hr IH Hs]; intro Hc.
  - destruct Hm as (_ & _ & _ & _ & _ & Hz & _). lia.
  - pose proof (reachable_Inv _ _ _ Hr) as H.
    destruct (completed_step _ _ _ Hs) as [[-> _]|[Hne Heq]].
    + destruct (step_Settle _ _ _ _ Hs) as (t' & Ht' & _ & ->).
      assert (t' = t) by congruence. subst t'.
      apply watermarked_guarded, watermarked_resume, H.
    + apply (guarded_step ev w w' H); [|exact Hs]. apply IH. lia.
Qed.

End Healing.

(** X1.  Once a run of [drawWatermark] has completed, the component is never
    left unguarded, whatever other code does to the container: the overlay
    watched by the registered observer is in the container with the style it
    was given, or a run is waiting to continue, or the observer's queue holds
    a batch that will start one. *)
Theorem watermark_guarded E options t w :
  getCanvasData E options = Fulfilled t ->
  reachable E options w -> 0 < completed w ->
  exists i o, current w = Some i /\ nth_error (observers w) i = Some o /\
    ob_observing o = true /\
    (In (intact E options t (ob_watermarkDiv o)) (children w) \/
     0 < awaiting w \/
     isChanged (ob_watermarkDiv o) (ob_records o) = true).
Proof. intros Ht Hr Hc. exact (reachable_guarded E options t Ht w Hr Hc). Qed.

Lemma watermark_guarded_witness :
  let o := options_of Sample.confidential in
  let w := Sample.after [Mount; Settle; RemoveChild 2] in
  exists i ob, current w = Some i /\ nth_error (observers w) i = Some ob /\
    ob_observing ob = true /\
    (In (intact Sample.engine o Sample.tile (ob_watermarkDiv ob)) (children w) \/
     0 < awaiting w \/
     isChanged (ob_watermarkDiv ob) (ob_records ob) = true).
Proof.
  intros o w.
  assert (Hc : 0 < completed w) by (vm_compute; lia).
  exact (watermark_guarded Sample.engine o Sample.tile w sample_tile
           (after_reachable _) Hc).
Defined.

(** X2.  Once a run has completed, the watermark comes back by itself: from
    every reachable world at most two events of the component's own - the
    delivery of the queued batch and the continuation of a run - lead to a
    world in which the watched overlay is in the container with the style it
    was given. *)
Theorem watermark_restored E options t w :
  getCanvasData E options = Fulfilled t ->
  reachable E options w -> 0 < completed w ->
  exists evs w',
    List.length evs <= 2 /\
    Forall (fun ev => ev = Settle \/ exists i, ev = Deliver i) evs /\
    run E options evs w = Some w' /\
    watermarked E options t w'.
Proof.
  intros Ht Hr Hc. pose proof (reachable_Inv _ _ _ Hr) as H.
  destruct (reachable_guarded E options t Ht w Hr Hc)
    as (i & o & Hcur & Hnth & Hobs & Hg).
  assert (Hsettle : forall x, Inv x -> 0 < awaiting x ->
            step E options Settle x = Some (resume E options t x) /\
            watermarked E options t (resume E options t x)).
  { intros x Hx Ha. split; [apply step_Settle_enabled; assumption|].
    apply watermarked_resume; assumption. }
  destruct Hg as [Hg|[Hg|Hg]].
  - exists [], w. split; [cbn; lia|]. split; [constructor|].
    split; [reflexivity|]. exists i, o. auto.
  - destruct (Hsettle w H Hg) as [Hs Hw].
    exists [Settle], (resume E options t w). split; [cbn; lia|].
    split; [repeat constructor; left; reflexivity|].
    split; [rewrite run_one; exact Hs|exact Hw].
  - destruct (ob_records o) as [|m ms] eqn:Hrec; [discriminate Hg|].
    set (x := callback (ob_watermarkDiv o) (m :: ms)
                (set_observers (update_observer i taken (observers w)) w)).
    assert (Hd : step E options (Deliver i) w = Some x).
    { cbn [step]. rewrite Hnth, Hrec. reflexivity. }
    assert (Ha : 0 < awaiting x).
    { unfold x, callback. rewrite Hg. cbn. lia. }
    destruct (Hsettle x (Inv_step _ _ _ _ _ H Hd) Ha) as [Hs Hw].
    exists [Deliver i; Settle], (resume E options t x).
    split; [cbn; lia|]. split.
    { constructor; [right; exists i; reflexivity|].
      constructor; [left; reflexivity|constructor]. }
    split; [rewrite (run_two _ _ _ _ _ _ Hd); exact Hs|exact Hw].
Qed.

Lemma watermark_restored_witness :
  let o := options_of Sample.confidential in
  let w := Sample.after [Mount; Settle; RemoveChild 2] in
  exists evs w',
    List.length evs <= 2 /\
    run Sample.engine o evs w = Some w' /\
    watermarked Sample.engine o Sample.tile w'.
Proof.
  intros o w.
  assert (Hc : 0 < completed w) by (vm_compute; lia).
  destruct (watermark_restored Sample.engine o Sample.tile w sample_tile
              (after_reachable _) Hc) as (evs & w' & Hl & _ & Hr & Hw).
  exists evs, w'. repeat split; assumption.
Defined.

(** ** Bookkeeping *)

Section Bookkeeping.

Variable E : Engine.
Variable options : Options.

Local Open Scope list_scope.

Lemma callback_current wm ms w : current (callback wm ms w) = current w.
Proof. unfold callback. destruct (isChanged wm ms); reflexivity. Qed.

Lemma callback_position wm ms w : position (callback wm ms w) = position w.
Proof. unfold callback. destruct (isChanged wm ms); reflexivity. Qed.

(** One observer per completed run, the reference on the newest. *)
Lemma reachable_ledger w :
  reachable E options w ->
  List.length (observers w) = completed w /\
  current w = match completed w with
              | 0 => None
              | S n => Some n
              end.
Proof.
  induction 1 as [host w Hm|ev w w' Hr [IHl IHc] Hs].
  - destruct Hm as (_ & _ & Ho & Hc & _ & Hz & _). rewrite Ho, Hc, Hz. auto.
  - destruct ev as [| |j|n|n name value|tag].
    + injection Hs as <-. auto.
    + destruct (step_Settle _ _ _ _ Hs) as (t & _ & _ & ->).
      destruct (resume_frame E options t w)
        as (_ & _ & Hcur & _ & Hcomp & _ & Hlen).
      rewrite Hlen, Hcomp, Hcur, IHl. auto.
    + destruct (step_Deliver _ _ _ _ _ Hs) as (oj & _ & _ & ->).
      destruct (callback_frame (ob_watermarkDiv oj) (ob_records oj)
                  (set_observers (update_observer j taken (observers w)) w))
        as (_ & _ & Hcomp & _ & Ho).
      rewrite Ho, Hcomp, callback_current. cbn.
      rewrite length_update_observer. auto.
    + rewrite step_RemoveChild in Hs.
      destruct (has_child n w); [|discriminate]. injection Hs as <-.
      cbn. rewrite length_map. auto.
    + rewrite step_SetAttribute in Hs.
      destruct (Nat.eqb n container || has_child n w); [|discriminate].
      injection Hs as <-. cbn. rewrite length_map. auto.
    + injection Hs as <-. cbn. rewrite length_map. auto.
Qed.

Lemma map_set_attr_fresh n name value (l : list Element) :
  Forall (fun e => el_id e < n) l -> map (set_attr_of n name value) l = l.
Proof.
  induction 1 as [|e l He _ IH]; cbn; [reflexivity|].
  rewrite IH. unfold set_attr_of.
  destruct (Nat.eqb_spec (el_id e) n); [lia|reflexivity].
Qed.

End Bookkeeping.

(** X3.  The component creates one observer per completed run and releases
    none: the list of observers is as long as the count of completed runs,
    [mutationObserver.current] is the newest of them, and every older one is
    disconnected with an empty queue. *)
Theorem observers_ledger E options w :
  reachable E options w ->
  List.length (observers w) = completed w /\
  current w = match completed w with
              | 0 => None
              | S n => Some n
              end /\
  forall i o, nth_error (observers w) i = Some o -> S i < completed w ->
              ob_observing o = false /\ ob_records o = [].
Proof.
  intro Hr. destruct (reachable_ledger E options w Hr) as [Hl Hc].
  pose proof (reachable_Inv _ _ _ Hr) as H.
  split; [exact Hl|]. split; [exact Hc|]. intros i o Hi Hlt.
  assert (Ho : ob_observing o = false).
  { destruct (ob_observing o) eqn:Ho; [|reflexivity].
    pose proof (inv_current _ H i o Hi Ho) as Hcur. rewrite Hc in Hcur.
    destruct (completed w); [discriminate|]. injection Hcur as ->. lia. }
  split; [exact Ho|]. apply (inv_idle _ H o); [|exact Ho].
  eapply nth_error_In; exact Hi.
Qed.

Lemma observers_ledger_witness :
  let w := Sample.after [Mount; Settle; RemoveChild 2; Deliver 0; Settle] in
  List.length (observers w) = 2 /\ current w = Some 1 /\
  forall i o, nth_error (observers w) i = Some o -> S i < completed w ->
              ob_observing o = false /\ ob_records o = [].
Proof.
  intro w.
  exact (observers_ledger Sample.engine (options_of Sample.confidential) w
           (after_reachable _)).
Defined.

(** X4.  The component never removes, reorders or changes a child of the
    container: over any sequence of its own events (mounts, deliveries,
    continued runs) the children it found stay in place, followed by one new
    [div] with the watermark style per continued run; and the only style it
    sets on the container is [position: relative]. *)
Theorem host_children_kept E options evs : forall w w',
  Forall (fun ev => internal ev = true) evs ->
  run E options evs w = Some w' ->
  exists l,
    children w' = (children w ++ l)%list /\
    List.length l = List.length (filter is_Settle evs) /\
    Forall (fun e => el_tag e = "div" /\
                     forall t, getCanvasData E options = Fulfilled t ->
                               el_attrs e = [("style", wmStyle E options t)]) l /\
    position w' = if existsb is_Settle evs then Some "relative" else position w.
Proof.
  induction evs as [|ev evs IH]; intros w w' Hint Hrun.
  - injection Hrun as <-. exists []. rewrite app_nil_r.
    repeat split. constructor.
  - rewrite run_cons in Hrun.
    destruct (step E options ev w) as [x|] eqn:Hs; [|discriminate].
    inversion Hint as [|? ? Hev Hrest]; subst.
    destruct (IH x w' Hrest Hrun) as (l & Hc & Hl & Hd & Hp).
    destruct ev as [| |j|n|n name value|tag]; try discriminate Hev.
    + injection Hs as <-. exists l. cbn in *. auto.
    + destruct (step_Settle _ _ _ _ Hs) as (t & Ht & _ & ->).
      destruct (resume_frame E options t w) as (Hcx & Hpx & _).
      exists (watermarkDiv E options t w :: l).
      rewrite Hc, Hcx, <- app_assoc. cbn [filter is_Settle existsb orb].
      split; [reflexivity|]. split; [cbn [List.length]; lia|]. split.
      * constructor; [|exact Hd]. split; [reflexivity|].
        intros t' Ht'. assert (t' = t) by congruence. subst t'. reflexivity.
      * rewrite Hp, Hpx. destruct (existsb is_Settle evs); reflexivity.
    + destruct (step_Deliver _ _ _ _ _ Hs) as (oj & _ & _ & ->).
      destruct (callback_frame (ob_watermarkDiv oj) (ob_records oj)
                  (set_observers (update_observer j taken (observers w)) w))
        as (_ & Hcx & _).
      rewrite callback_position in Hp.
      exists l. rewrite Hc, Hcx. cbn [filter is_Settle existsb orb].
      cbn in Hp. auto.
Qed.

Lemma host_children_kept_witness :
  let o := options_of Sample.confidential in
  exists l,
    children (Sample.after [Mount; Settle; Mount; Settle]) =
      (children Sample.page ++ l)%list /\
    List.length l = 2.
Proof.
  intro o.
  assert (Hint : Forall (fun ev => internal ev = true)
                        [Mount; Settle; Mount; Settle])
    by (repeat constructor).
  assert (Hr : run Sample.engine o [Mount; Settle; Mount; Settle] Sample.page =
               Some (Sample.after [Mount; Settle; Mount; Settle]))
    by (vm_compute; reflexivity).
  destruct (host_children_kept Sample.engine o _ _ _ Hint Hr)
    as (l & Hc & Hl & _).
  exists l. split; assumption.
Defined.

(** X5.  Healing is by appending.  When the overlay's attribute is changed,
    the batch delivered and the run it starts continued, the changed overlay
    is still in the container with the changed attribute, and a second
    overlay with the original style follows it. *)
Theorem tampered_overlay_stays E options t w name value :
  getCanvasData E options = Fulfilled t ->
  reachable E options w -> 0 < awaiting w ->
  let d := next_node w in
  let i := List.length (observers w) in
  exists w',
    run E options [Settle; SetAttribute d name value; Deliver i; Settle] w
      = Some w' /\
    children w' =
      (children w ++
       [{| el_id := d; el_tag := "div";
           el_attrs := set_attr name value [("style", wmStyle E options t)] |};
        intact E options t (S d)])%list.
Proof.
  intros Ht Hr Ha d i. pose proof (reachable_Inv _ _ _ Hr) as H.
  set (w1 := resume E options t w).
  destruct (resume_frame E options t w) as (Hc1 & _ & _ & _ & _ & Hn1 & _).
  destruct (resume_observers E options t w H) as (Hnth & _ & _).
  fold w1 in Hc1, Hn1, Hnth. fold d i in Hnth.
  set (x := set_children (map (set_attr_of d name value) (children w1)) w1).
  assert (Hs2 : step E options (SetAttribute d name value) w1 =
                Some (notify (attribute_set d) x)).
  { rewrite step_SetAttribute.
    assert (Hd : has_child d w1 = true).
    { unfold has_child. rewrite Hc1, existsb_app. cbn.
      unfold d. rewrite Nat.eqb_refl. apply orb_true_r. }
    rewrite Hd, orb_true_r. reflexivity. }
  destruct (deliver_after_notify E options (attribute_set d) x i d Hnth)
    as (x' & Hs3 & Hax & Hcx & _ & Hnx).
  rewrite attribute_changed in Hax.
  destruct (resume_frame E options t x') as (Hc4 & _).
  exists (resume E options t x'). split.
  - rewrite run_cons, (step_Settle_enabled E options w t Ha Ht).
    rewrite run_cons. fold w1. rewrite Hs2.
    rewrite (run_two E options _ _ _ _ Hs3).
    apply step_Settle_enabled; [lia|exact Ht].
  - rewrite Hc4, Hcx. unfold x. cbn [children set_children].
    rewrite Hc1, map_app, (map_set_attr_fresh _ _ _ _ (children_below w H)).
    rewrite <- app_assoc. f_equal. cbn [map app].
    unfold set_attr_of, watermarkDiv at 1. cbn [el_id el_tag el_attrs].
    fold d. rewrite Nat.eqb_refl. f_equal.
    unfold intact, watermarkDiv. f_equal. f_equal. rewrite Hnx. exact Hn1.
Qed.

Lemma tampered_overlay_stays_witness :
  let o := options_of Sample.confidential in
  exists w',
    run Sample.engine o
        [Settle; SetAttribute 2 "style" "opacity:0"; Deliver 0; Settle]
        (Sample.after [Mount]) = Some w' /\
    map el_attrs (children w') =
      [[]; [("style", "opacity:0")];
       [("style", wmStyle Sample.engine o Sample.tile)]].
Proof.
  intro o.
  assert (Ha : 0 < awaiting (Sample.after [Mount])) by (vm_compute; lia).
  destruct (tampered_overlay_stays Sample.engine o Sample.tile
              (Sample.after [Mount]) "style" "opacity:0" sample_tile
              (after_reachable _) Ha) as (w' & Hr & Hc).
  exists w'. split; [exact Hr|]. rewrite Hc. reflexivity.
Defined.

(** ** Options and tile *)

Lemma string_app_assoc (a b c : string) :
  ((a ++ b) ++ c = a ++ (b ++ c))%string.
Proof. induction a as [|x a IH]; cbn; [reflexivity|]. rewrite IH. reflexivity. Qed.

(** X6.  Every option the caller leaves out takes its default, every option
    the caller gives wins, and [textStyle] is merged field by field, so a
    partial [textStyle] keeps the other defaults; [text], [image] and
    [offset] have no default and stay as the caller passed them. *)
Theorem options_defaults props :
  let o := options_of props in
  let ts := p_textStyle props in
  width o = get (p_width props) 120%float /\
  height o = get (p_height props) 64%float /\
  zIndex o = get (p_zIndex props) 9%float /\
  rotate o = get (p_rotate props) (-22)%float /\
  gap o = get (p_gap props) (100%float, 100%float) /\
  color (textStyle o) = style_field p_color ts "rgba(0, 0, 0, 0.15)" /\
  fontFamily (textStyle o) = style_field p_fontFamily ts "sans-serif" /\
  fontSize (textStyle o) = style_field p_fontSize ts (Str "16px") /\
  fontWeight (textStyle o) = style_field p_fontWeight ts (Str "normal") /\
  text o = p_text props /\ image o = p_image props /\
  offset o = p_offset props.
Proof.
  destruct props as [w h tx ts im z r g off].
  destruct w, h, z, r, g, tx, im, off;
    destruct ts as [[[c|] [ff|] [fs|] [fw|]]|];
    repeat split; reflexivity.
Qed.

Section TileGeometry.

Variable E : Engine.
Variable options : Options.

Let str (x : JS.number) : string := JS.toString (digits E) x.
Let r := devicePixelRatio E.

(** What [configCanvas] leaves on any canvas. *)
Lemma configCanvas_spec W H canvas :
  let c := configCanvas E options W H canvas in
  let cw := (fst (gap options) + W)%float in
  let ch := (snd (gap options) + H)%float in
  attr_width c = Some (str (cw * r)%float ++ "px") /\
  attr_height c = Some (str (ch * r)%float ++ "px") /\
  style_width c = (if CSS.nonnegative_px (str cw ++ "px")
                   then Some (str cw ++ "px") else style_width canvas) /\
  style_height c = (if CSS.nonnegative_px (str ch ++ "px")
                    then Some (str ch ++ "px") else style_height canvas) /\
  ctx_ops c = [Translate (cw * r / 2)%float (ch * r / 2)%float;
               Scale r r;
               Rotate (rotate options * JS.Math_PI / 180)%float].
Proof. repeat split; reflexivity. Qed.

(** The canvas and tile of a fulfilled [getCanvasData] are those of
    [drawText] or of the [onload] branch of [drawImage]. *)
Lemma fulfilled_cases t c :
  getCanvasData_canvas E options = (Fulfilled t, c) ->
  (JS.truthy_opt JS.truthy_string (image options) = false /\
   (t, c) = drawText E options createCanvas) \/
  (exists src img,
     image options = Some src /\ JS.truthy_string src = true /\
     loadImage E src = Some img /\
     let '(W, H) := imageSize options img in
     let c0 := configCanvas E options W H createCanvas in
     let c1 := call (DrawImage img (- W / 2)%float (- H / 2)%float W H) c0 in
     t = {| base64Url := toDataURL E c1; tile_width := W; tile_height := H |}
     /\ c = c1).
Proof.
  unfold getCanvasData_canvas.
  destruct (image options) as [src|] eqn:Hi; cbn [JS.truthy_opt].
  - destruct (JS.truthy_string src) eqn:Hs.
    + unfold drawImage. destruct (loadImage E src) as [img|] eqn:Hl.
      * intro H. right. exists src, img. repeat split; try assumption.
        destruct (imageSize options img) as [W Hh].
        injection H as <- <-. split; reflexivity.
      * destruct (drawText E options createCanvas). discriminate.
    + destruct (drawText E options createCanvas) as [t0 c0].
      intros [= <- <-]. left. split; reflexivity.
  - destruct (drawText E options createCanvas) as [t0 c0].
    intros [= <- <-]. left. split; reflexivity.
Qed.

End TileGeometry.

(** X7.  In either mode the tile repeats seamlessly.  The canvas of a
    fulfilled tile gets as [width] and [height] attributes the text of
    [gap + tile] times the device pixel ratio, and is laid out [gap + tile]
    wide and high in CSS pixels when that is a valid length (it keeps no CSS
    size otherwise).  Exactly four calls are made on its context: the origin
    is moved to the centre of the backing store, scaled by the ratio and
    rotated, and then the text or the image is painted.  The tile's image is
    the export of that canvas, and the [div] a run appends for the tile
    has a style attribute that contains [background-size:] followed by
    [gap + tile] in px for both directions. *)
Theorem tile_geometry E options t c w :
  getCanvasData_canvas E options = (Fulfilled t, c) ->
  let str := JS.toString (digits E) in
  let r := devicePixelRatio E in
  let cw := (fst (gap options) + tile_width t)%float in
  let ch := (snd (gap options) + tile_height t)%float in
  attr_width c = Some (str (cw * r)%float ++ "px") /\
  attr_height c = Some (str (ch * r)%float ++ "px") /\
  style_width c = (if CSS.nonnegative_px (str cw ++ "px")
                   then Some (str cw ++ "px") else None) /\
  style_height c = (if CSS.nonnegative_px (str ch ++ "px")
                    then Some (str ch ++ "px") else None) /\
  (exists op,
     ctx_ops c =
       [Translate (cw * r / 2)%float (ch * r / 2)%float; Scale r r;
        Rotate (rotate options * JS.Math_PI / 180)%float; op] /\
     is_FillText op || is_DrawImage op = true) /\
  base64Url t = toDataURL E c /\
  exists pre post,
    children (resume E options t w) =
      (children w ++
       [{| el_id := next_node w; el_tag := "div";
           el_attrs :=
             [("style",
               (pre ++ "background-size:" ++ (str cw ++ "px") ++ " "
                    ++ (str ch ++ "px") ++ ";" ++ post)%string)] |}])%list.
Proof.
  intros Hf str r cw ch.
  assert (Hstyle : exists pre post,
    children (resume E options t w) =
      (children w ++
       [{| el_id := next_node w; el_tag := "div";
           el_attrs :=
             [("style",
               (pre ++ "background-size:" ++ (str cw ++ "px") ++ " "
                    ++ (str ch ++ "px") ++ ";" ++ post)%string)] |}])%list).
  { exists (nl ++ "      width:calc(100% - "
              ++ str_of E (offsetLeft E options) ++ ");" ++
            nl ++ "      height:calc(100% - "
              ++ str_of E (offsetTop E options) ++ ");" ++
            nl ++ "      position:absolute;" ++
            nl ++ "      top:" ++ str_of E (offsetTop E options) ++ ";" ++
            nl ++ "      left:" ++ str_of E (offsetLeft E options) ++ ";" ++
            nl ++ "      bottom:0;" ++
            nl ++ "      right:0;" ++
            nl ++ "      pointer-events: none;" ++
            nl ++ "      z-index:" ++ str (zIndex options) ++ ";" ++
            nl ++ "      background-position: 0 0;" ++
            nl ++ "      ").
    exists (nl ++ "      background-repeat: repeat;" ++
            nl ++ "      background-image:url(" ++ base64Url t ++ ")").
    destruct (resume_frame E options t w) as (Hc & _). rewrite Hc.
    unfold watermarkDiv. do 4 f_equal. unfold wmStyle.
    rewrite !string_app_assoc. reflexivity. }
  destruct (fulfilled_cases E options t c Hf)
    as [[_ Hd]|(src & img & _ & _ & _ & Hd)].
  - injection Hd as -> ->.
    do 4 (split; [reflexivity|]). split; [|split; [reflexivity|exact Hstyle]].
    eexists. split; reflexivity.
  - destruct (imageSize options img) as [W H]. destruct Hd as [-> ->].
    do 4 (split; [reflexivity|]). split; [|split; [reflexivity|exact Hstyle]].
    eexists. split; reflexivity.
Qed.

Lemma tile_geometry_witness :
  let o := options_of (Sample.props emptyProps None (Some "logo.png")) in
  let c := snd (getCanvasData_canvas Sample.engine o) in
  attr_width c = Some "440px" /\ style_width c = Some "220px" /\
  exists op, ctx_ops c =
    [Translate 220%float 164%float; Scale 2%float 2%float;
     Rotate (-22 * JS.Math_PI / 180)%float; op] /\
    is_FillText op || is_DrawImage op = true.
Proof.
  intros o c.
  assert (Hf : getCanvasData_canvas Sample.engine o =
               (Fulfilled {| base64Url := "data:image/png;base64,tsrI(logo.png)";
                             tile_width := 120%float;
                             tile_height := 64%float |}, c))
    by (vm_compute; reflexivity).
  destruct (tile_geometry Sample.engine o _ c Sample.page Hf)
    as (Haw & _ & Hsw & _ & Hops & _).
  split; [rewrite Haw; vm_compute; reflexivity|].
  split; [rewrite Hsw; vm_compute; reflexivity|exact Hops].
Defined.

(** X8.  Text and image are exclusive, the image first: the canvas of a
    fulfilled tile holds a [drawImage] call exactly when [image] is a
    non-empty string, and a [fillText] call exactly when it is not (an empty
    string counts as no image, and a [text] given beside an image is not
    painted).  In text mode the one string painted is [text], and the string
    "undefined" when the caller gave no [text]. *)
Theorem tile_modes E options t c :
  getCanvasData_canvas E options = (Fulfilled t, c) ->
  let with_image := JS.truthy_opt JS.truthy_string (image options) in
  existsb is_DrawImage (ctx_ops c) = with_image /\
  existsb is_FillText (ctx_ops c) = negb with_image /\
  (with_image = false ->
   exists x y maxWidth font fillStyle,
     filter is_FillText (ctx_ops c) =
       [FillText (DOMString (text options)) x y maxWidth font fillStyle "top"]
     /\ (text options = None -> DOMString (text options) = "undefined")).
Proof.
  intros Hf with_image.
  destruct (fulfilled_cases E options t c Hf)
    as [[Hi Hd]|(src & img & Hi & Hs & _ & Hd)].
  - assert (Hc : c = snd (drawText E options createCanvas))
      by (rewrite <- Hd; reflexivity).
    subst c. unfold with_image. rewrite Hi.
    rewrite drawText_ops. cbn [existsb is_DrawImage is_FillText orb negb filter].
    split; [reflexivity|]. split; [reflexivity|]. intros _.
    eexists _, _, _, _, _. split; [reflexivity|]. intros ->. reflexivity.
  - unfold with_image. rewrite Hi. cbn [JS.truthy_opt]. rewrite Hs.
    destruct (imageSize options img) as [W H]. destruct Hd as [-> ->].
    split; [reflexivity|]. split; [reflexivity|]. discriminate.
Qed.

Lemma tile_modes_witness :
  let o := options_of {| p_width := None; p_height := None; p_text := None;
                         p_textStyle := None; p_image := Some EmptyString;
                         p_zIndex := None; p_rotate := None; p_gap := None;
                         p_offset := None |} in
  let c := snd (getCanvasData_canvas Sample.engine o) in
  existsb is_DrawImage (ctx_ops c) = false /\
  exists x y maxWidth font fillStyle,
    filter is_FillText (ctx_ops c) =
      [FillText "undefined" x y maxWidth font fillStyle "top"].
Proof.
  intros o c.
  assert (Hf : getCanvasData_canvas Sample.engine o =
               (Fulfilled (fst (drawText Sample.engine o createCanvas)), c))
    by (vm_compute; reflexivity).
  destruct (tile_modes Sample.engine o _ c Hf) as (Hd & _ & Ht).
  split; [exact Hd|].
  destruct (Ht eq_refl) as (x & y & m & f & s & Hfilt & _).
  exists x, y, m, f, s. exact Hfilt.
Defined.

(** * The file tabs *)

Lemma item_run_app evs1 : forall evs2 s s1 calls1,
  FileNameItem.run evs1 s = Some (s1, calls1) ->
  FileNameItem.run (evs1 ++ evs2) s =
    match FileNameItem.run evs2 s1 with
    | Some (s2, calls2) => Some (s2, (calls1 ++ calls2)%list)
    | None => None
    end.
Proof.
  induction evs1 as [|ev evs1 IH]; cbn [FileNameItem.run app]; intros evs2 s s1 calls1.
  - intros [= <- <-]. destruct (FileNameItem.run evs2 s) as [[s2 c2]|]; reflexivity.
  - destruct (FileNameItem.step ev s) as [[s' c']|]; [|discriminate].
    destruct (FileNameItem.run evs1 s') as [[s'' c'']|] eqn:Hr; [|discriminate].
    intros [= <- <-]. rewrite (IH evs2 s' s'' c'' Hr).
    destruct (FileNameItem.run evs2 s'') as [[s2 c2]|]; [|reflexivity].
    rewrite app_assoc. reflexivity.
Qed.

Lemma last_default (l : list string) : forall a d d',
  last (a :: l) d = last (a :: l) d'.
Proof.
  induction l as [|b l IH]; intros a d d'; [reflexivity|].
  change (last (b :: l) d = last (b :: l) d'). apply IH.
Qed.

(** Typing while the input is shown keeps it shown and calls nothing. *)
Lemma item_typing typed : forall n,
  FileNameItem.run (map FileNameItem.Change typed)
                   {| FileNameItem.name := n; FileNameItem.editing := true |} =
    Some ({| FileNameItem.name := last typed n;
             FileNameItem.editing := true |}, []).
Proof.
  induction typed as [|v typed IH]; intro n; [reflexivity|].
  cbn [map FileNameItem.run].
  change (FileNameItem.step (FileNameItem.Change v)
            {| FileNameItem.name := n; FileNameItem.editing := true |})
    with (Some ({| FileNameItem.name := v; FileNameItem.editing := true |},
                @nil FileNameItem.Call)).
  cbv beta iota. rewrite IH. destruct typed as [|x typed]; [reflexivity|].
  rewrite (last_default typed x v n). reflexivity.
Qed.

(** X9.  An edit of a tab: a double click on a tab that is not being edited,
    any number of changes of the input and a blur leave the tab showing the
    last text typed (the old name if nothing was typed) and not editing, and
    call [onEditComplete] once, with that text.  In the list this asks the
    context to rename the file of the tab to that text and then to select
    it - also when the text is empty or is the old name. *)
Theorem edit_session s typed item :
  FileNameItem.editing s = false ->
  let final := last typed (FileNameItem.name s) in
  FileNameItem.run
    (FileNameItem.DoubleClick :: map FileNameItem.Change typed
       ++ [FileNameItem.Blur])%list s =
    Some ({| FileNameItem.name := final; FileNameItem.editing := false |},
          [FileNameItem.onEditComplete final]) /\
  List.concat
    (map (FileNameList.forward item) [FileNameItem.onEditComplete final]) =
    [FileNameList.updateFileName item final;
     FileNameList.setSelectedFileName final].
Proof.
  intros He final. split; [|reflexivity].
  destruct s as [n e]. cbn in He. subst e.
  cbn [FileNameItem.run app].
  change (FileNameItem.step FileNameItem.DoubleClick
            {| FileNameItem.name := n; FileNameItem.editing := false |})
    with (Some ({| FileNameItem.name := n; FileNameItem.editing := true |},
                @nil FileNameItem.Call)).
  cbv beta iota. rewrite (item_run_app _ _ _ _ _ (item_typing typed n)). reflexivity.
Qed.

Lemma edit_session_witness :
  FileNameItem.run
    [FileNameItem.DoubleClick; FileNameItem.Change "App.t";
     FileNameItem.Change "Ap.tsx"; FileNameItem.Blur]
    (FileNameItem.init "App.tsx") =
    Some ({| FileNameItem.name := "Ap.tsx"; FileNameItem.editing := false |},
          [FileNameItem.onEditComplete "Ap.tsx"]).
Proof.
  exact (proj1 (edit_session (FileNameItem.init "App.tsx")
                             ["App.t"; "Ap.tsx"] "App.tsx" eq_refl)).
Defined.

(** ** Keys of the tabs *)

Lemma append_last_inj (s : string) : forall s' c c',
  (s ++ String c EmptyString = s' ++ String c' EmptyString)%string ->
  s = s' /\ c = c'.
Proof.
  induction s as [|a s IH]; intros [|a' s'] c c'; cbn.
  - intros [= ->]. auto.
  - intros [= -> H]. destruct s'; discriminate.
  - intros [= -> H]. destruct s; discriminate.
  - intros [= -> H]. destruct (IH _ _ _ H) as [-> ->]. auto.
Qed.

Lemma decimal_digit i :
  i < 10 ->
  JS.decimal (Z.of_nat i) = String (ascii_of_nat (48 + i)) EmptyString.
Proof.
  intro H. do 10 (destruct i as [|i]; [reflexivity|]). lia.
Qed.

Lemma key_digit_inj item item' i j :
  i < 10 -> j < 10 ->
  FileNameList.key item i = FileNameList.key item' j -> i = j.
Proof.
  intros Hi Hj. unfold FileNameList.key.
  rewrite (decimal_digit i Hi), (decimal_digit j Hj). intro H.
  apply append_last_inj in H. destruct H as [_ H].
  apply (f_equal nat_of_ascii) in H.
  rewrite !nat_ascii_embedding in H by lia. lia.
Qed.

Lemma keys_from_In k tabs : forall i,
  In k (FileNameList.keys_from i tabs) ->
  exists item j, i <= j < i + List.length tabs /\ k = FileNameList.key item j.
Proof.
  induction tabs as [|item tabs IH]; intros i; cbn; [tauto|].
  intros [<-|Hin].
  - exists item, i. split; [lia|reflexivity].
  - destruct (IH _ Hin) as (item' & j & Hj & ->).
    exists item', j. split; [lia|reflexivity].
Qed.

Lemma keys_from_NoDup tabs : forall i,
  i + List.length tabs <= 10 -> NoDup (FileNameList.keys_from i tabs).
Proof.
  induction tabs as [|item tabs IH]; intros i Hl; cbn; constructor.
  - intro Hin. destruct (keys_from_In _ _ _ Hin) as (item' & j & Hj & Hk).
    cbn in Hl. apply key_digit_inj in Hk; lia.
  - apply IH. cbn in Hl. lia.
Qed.

(** X10.  The keys of the tabs, [item + index], are pairwise distinct as long
    as there are at most ten tabs, whatever the names; from twelve tabs on
    distinct file names can get the same key (["x1"] at index 1 and ["x"] at
    index 11 both get ["x11"]). *)
Theorem tab_keys :
  (forall tabs, List.length tabs <= 10 -> NoDup (FileNameList.keys tabs)) /\
  (exists tabs, List.length tabs = 12 /\ NoDup tabs /\
                ~ NoDup (FileNameList.keys tabs)).
Proof.
  split.
  - intros tabs Hl. apply keys_from_NoDup. lia.
  - exists ["a"; "x1"; "b"; "c"; "d"; "e"; "f"; "g"; "h"; "i"; "j"; "x"].
    split; [reflexivity|]. split.
    + repeat constructor; cbn; intuition discriminate.
    + intro H. vm_compute in H.
      inversion H as [|? ? _ H1]; subst.
      inversion H1 as [|? ? Hn _]; subst.
      apply Hn. cbn. tauto.
Qed.

Lemma tab_keys_witness :
  NoDup (FileNameList.keys ["App.tsx"; "main.tsx"; "App.css"]).
Proof. apply (proj1 tab_keys). cbn. lia. Defined.

(** ** Batches *)

Section Batches.

Variable E : Engine.
Variable options : Options.

Local Open Scope list_scope.

Lemma has_child_set_attr n m name value (l : list Element) :
  existsb (fun e => Nat.eqb (el_id e) n) (map (set_attr_of m name value) l) =
  existsb (fun e => Nat.eqb (el_id e) n) l.
Proof.
  induction l as [|e l IH]; cbn; [reflexivity|]. rewrite IH. f_equal.
  unfold set_attr_of. destruct (Nat.eqb (el_id e) m); reflexivity.
Qed.

(** Attribute changes of the watched overlay pile up in the queue of its
    observer and start nothing by themselves. *)
Lemma attribute_changes_queue d i l : forall w q,
  has_child d w = true ->
  nth_error (observers w) i =
    Some {| ob_watermarkDiv := d; ob_observing := true; ob_records := q |} ->
  exists w',
    run E options (attribute_changes d l) w = Some w' /\
    has_child d w' = true /\
    nth_error (observers w') i =
      Some {| ob_watermarkDiv := d; ob_observing := true;
              ob_records := q ++ repeat (attribute_set d) (List.length l) |} /\
    awaiting w' = awaiting w /\ completed w' = completed w /\
    List.length (children w') = List.length (children w).
Proof.
  induction l as [|[name value] l IH]; intros w q Hd Hnth.
  - exists w. cbn [List.length repeat]. rewrite app_nil_r.
    repeat split; try reflexivity; assumption.
  - cbn [attribute_changes map fst snd]. rewrite run_cons, step_SetAttribute.
    rewrite Hd, orb_true_r.
    set (x := notify (attribute_set d)
                (set_children
                   (map (set_attr_of d name value) (children w)) w)).
    destruct (IH x (q ++ [attribute_set d])) as (w' & Hr & Hd' & Hn' & Ha & Hc & Hl).
    + unfold x, has_child. cbn. rewrite has_child_set_attr. exact Hd.
    + unfold x. cbn. rewrite nth_error_map, Hnth. reflexivity.
    + exists w'. split; [exact Hr|]. split; [exact Hd'|]. split.
      * rewrite Hn', <- app_assoc. reflexivity.
      * rewrite Ha, Hc, Hl. unfold x. cbn. rewrite length_map. auto.
Qed.

Lemma run_app evs1 evs2 : forall w,
  run E options (evs1 ++ evs2) w =
    match run E options evs1 w with
    | Some x => run E options evs2 x
    | None => None
    end.
Proof.
  induction evs1 as [|ev evs1 IH]; intro w; [reflexivity|].
  cbn [app]. rewrite !run_cons.
  destruct (step E options ev w) as [y|]; [apply IH|reflexivity].
Qed.

Lemma isChanged_repeat d k :
  0 < k -> isChanged d (repeat (attribute_set d) k) = true.
Proof.
  destruct k as [|k]; [lia|]. intros _. cbn [repeat].
  change (isChanged d ([attribute_set d] ++ repeat (attribute_set d) k) = true).
  rewrite isChanged_app, attribute_changed. reflexivity.
Qed.

End Batches.

(** X11.  The callback runs [drawWatermark] once per batch, not once per
    record: after a run, any number (at least one) of attribute changes of
    the overlay that reach the observer in one batch start exactly one run,
    and no node is added or removed before that run continues. *)
Theorem tamper_batch_one_run E options t w l :
  getCanvasData E options = Fulfilled t ->
  reachable E options w -> 0 < awaiting w -> l <> [] ->
  let d := next_node w in
  let i := List.length (observers w) in
  let w1 := resume E options t w in
  exists w2,
    run E options (attribute_changes d l ++ [Deliver i])%list w1 = Some w2 /\
    awaiting w2 = S (awaiting w1) /\ completed w2 = completed w1 /\
    List.length (children w2) = List.length (children w1).
Proof.
  intros Ht Hr Ha Hl d i w1. pose proof (reachable_Inv _ _ _ Hr) as H.
  destruct (resume_frame E options t w) as (Hc1 & _).
  destruct (resume_observers E options t w H) as (Hnth & _ & _).
  fold w1 in Hc1, Hnth. fold d i in Hnth.
  assert (Hd : has_child d w1 = true).
  { unfold has_child. rewrite Hc1, existsb_app. cbn.
    unfold d. rewrite Nat.eqb_refl. apply orb_true_r. }
  destruct (attribute_changes_queue E options d i l w1 [] Hd Hnth)
    as (x & Hrun & _ & Hq & Hax & Hcx & Hlx).
  cbn [app] in Hq.
  assert (Hk : isChanged d (repeat (attribute_set d) (List.length l)) = true).
  { apply isChanged_repeat. destruct l; [contradiction|cbn; lia]. }
  destruct (repeat (attribute_set d) (List.length l)) as [|m ms] eqn:Hrep;
    [discriminate Hk|].
  set (x' := callback d (m :: ms)
               (set_observers (update_observer i taken (observers x)) x)).
  exists x'.
  destruct (callback_frame d (m :: ms)
              (set_observers (update_observer i taken (observers x)) x))
    as (Ha' & Hc' & Hcomp' & _).
  fold x' in Ha', Hc', Hcomp'. rewrite Hk in Ha'.
  split.
  - rewrite run_app, Hrun, run_one. cbn [step]. rewrite Hq. reflexivity.
  - rewrite Ha', Hc', Hcomp'. cbn. rewrite Hax, Hcx, Hlx. auto.
Qed.

Lemma tamper_batch_one_run_witness :
  let o := options_of Sample.confidential in
  let w1 := resume Sample.engine o Sample.tile (Sample.after [Mount]) in
  exists w2,
    run Sample.engine o
        [SetAttribute 2 "style" "opacity:0"; SetAttribute 2 "hidden" "hidden";
         Deliver 0] w1 = Some w2 /\
    awaiting w2 = 1.
Proof.
  intros o w1.
  assert (Ha : 0 < awaiting (Sample.after [Mount])) by (vm_compute; lia).
  assert (Hl : [("style", "opacity:0"); ("hidden", "hidden")]
               <> @nil (string * string)) by discriminate.
  destruct (tamper_batch_one_run Sample.engine o Sample.tile
              (Sample.after [Mount]) _ sample_tile (after_reachable _) Ha Hl)
    as (w2 & Hr & Haw & _).
  exists w2. split; [exact Hr|exact Haw].
Defined.
